(** * SunLCD: a shallow embedding of the JC024 serial LCD driver

    The development follows [src/__init__.py] (class [SunLCD], Python 2):
    the serial response reader and command channel, the command encoder,
    the image/font allocator and the image-font text renderer.

    Python integers are [Z], Python [str] values are [string] (one
    [ascii] per byte), Python floats are IEEE-754 binary64 values given by
    [SpecFloat], dictionaries are [gmap], and the object's attributes are the
    fields of the record [SunLCD], threaded explicitly through every
    method. *)

From Stdlib Require Import ZArith QArith Qround Lia List Ascii String.
From Stdlib Require Import DecimalString SpecFloat.
From stdpp Require Import base gmap list strings.

Local Open Scope Z_scope.

(** ** Python primitives used by the driver *)

Module Py.

(** Exceptions the driver's operations can raise. *)
Inductive exn := IndexError | KeyError | TypeError | ValueError | OverflowError.

Inductive result (A : Type) :=
| Ret (a : A)
| Raise (e : exn).
Arguments Ret {A} a.
Arguments Raise {A} e.

(** [str(n)] for an integer: decimal digits, with a leading minus sign. *)
Definition str (z : Z) : string := NilZero.string_of_int (Z.to_int z).

(** [ord(c) == 10] *)
Definition is_lf (c : ascii) : bool := (nat_of_ascii c =? 10)%nat.

(** Whitespace of a Python 2 byte string: TAB, LF, VT, FF, CR and space. *)
Definition isspace (c : ascii) : bool :=
  let n := nat_of_ascii c in
  ((9 <=? n)%nat && (n <=? 13)%nat) || (n =? 32)%nat.

Fixpoint lstrip (s : string) : string :=
  match s with
  | EmptyString => EmptyString
  | String c s' => if isspace c then lstrip s' else s
  end.

Fixpoint rstrip (s : string) : string :=
  match s with
  | EmptyString => EmptyString
  | String c s' =>
      match rstrip s' with
      | EmptyString => if isspace c then EmptyString else String c EmptyString
      | r => String c r
      end
  end.

(** [s.strip()] *)
Definition strip (s : string) : string := rstrip (lstrip s).

(** [l[i]] on a list: negative indices count from the end, anything
    outside [-len, len) raises [IndexError]. *)
Definition index {A : Type} (l : list A) (i : Z) : result A :=
  let n := Z.of_nat (length l) in
  let j := if i <? 0 then n + i else i in
  if (0 <=? j) && (j <? n) then
    match l !! Z.to_nat j with
    | Some a => Ret a
    | None => Raise IndexError
    end
  else Raise IndexError.

(** [len(s)] for a string. *)
Definition len (s : string) : Z := Z.of_nat (String.length s).

End Py.

Import Py.

Definition CRLF : string := String "013" (String "010" EmptyString).
Definition LF : string := String "010" EmptyString.

(** ** The serial transport

    The port is the driver's only collaborator.  Its model records what the
    driver did to it ([trace], in chronological order) and holds the device's
    answers as a schedule [rx]: the n-th element is the byte string sitting in
    the input buffer when the driver drains it for the n-th time (empty when
    nothing is waiting). *)

Inductive event :=
| EvWrite (data : string)      (* ser.write(data) *)
| EvSleep (ms : Z)             (* time.sleep(ms / 1000.0) *)
| EvDrain (data : string)      (* the inWaiting()/read(1) loop read [data] *)
| EvBaud (rate : Z).           (* close, set baudrate, open *)

Record Serial := mkSerial {
  rx : list string;
  trace : list event
}.

Definition Serial_write (data : string) (p : Serial) : Serial :=
  {| rx := rx p; trace := trace p ++ [EvWrite data] |}.

Definition Serial_sleep (ms : Z) (p : Serial) : Serial :=
  {| rx := rx p; trace := trace p ++ [EvSleep ms] |}.

Definition Serial_drain (p : Serial) : string * Serial :=
  match rx p with
  | [] => (EmptyString, {| rx := []; trace := trace p ++ [EvDrain EmptyString] |})
  | chunk :: rest => (chunk, {| rx := rest; trace := trace p ++ [EvDrain chunk] |})
  end.

Definition Serial_reopen (rate : Z) (p : Serial) : Serial :=
  {| rx := rx p; trace := trace p ++ [EvBaud rate] |}.

(** ** The session object *)

(** A font: [this_font[c]] is the image id of character [c]. *)
Abbreviation font := (gmap ascii Z).

Record SunLCD := mkSunLCD {
  ser : Serial;
  ok : bool;
  response_body : string;
  _buf : string;
  cursor : Z * Z;
  img_list : list (Z * (Z * Z));
  img_offset : Z;
  font_list : list font;
  current_orientation : Z;
  standard_width : Z;
  standard_height : Z
}.

Definition VERTICAL : Z := 0.
Definition HORIZONTAL : Z := 1.
Definition COLOR_BLACK : Z := 0.
Definition COLOR_WHITE : Z := 15.

Definition set_ser (v : Serial) (s : SunLCD) : SunLCD :=
  mkSunLCD v (ok s) (response_body s) (_buf s) (cursor s) (img_list s)
    (img_offset s) (font_list s) (current_orientation s) (standard_width s)
    (standard_height s).

Definition set_ok (v : bool) (s : SunLCD) : SunLCD :=
  mkSunLCD (ser s) v (response_body s) (_buf s) (cursor s) (img_list s)
    (img_offset s) (font_list s) (current_orientation s) (standard_width s)
    (standard_height s).

Definition set_response_body (v : string) (s : SunLCD) : SunLCD :=
  mkSunLCD (ser s) (ok s) v (_buf s) (cursor s) (img_list s)
    (img_offset s) (font_list s) (current_orientation s) (standard_width s)
    (standard_height s).

Definition set_buf (v : string) (s : SunLCD) : SunLCD :=
  mkSunLCD (ser s) (ok s) (response_body s) v (cursor s) (img_list s)
    (img_offset s) (font_list s) (current_orientation s) (standard_width s)
    (standard_height s).

Definition set_cursor (v : Z * Z) (s : SunLCD) : SunLCD :=
  mkSunLCD (ser s) (ok s) (response_body s) (_buf s) v (img_list s)
    (img_offset s) (font_list s) (current_orientation s) (standard_width s)
    (standard_height s).

Definition set_img_list (v : list (Z * (Z * Z))) (s : SunLCD) : SunLCD :=
  mkSunLCD (ser s) (ok s) (response_body s) (_buf s) (cursor s) v
    (img_offset s) (font_list s) (current_orientation s) (standard_width s)
    (standard_height s).

Definition set_img_offset (v : Z) (s : SunLCD) : SunLCD :=
  mkSunLCD (ser s) (ok s) (response_body s) (_buf s) (cursor s) (img_list s)
    v (font_list s) (current_orientation s) (standard_width s)
    (standard_height s).

Definition set_font_list (v : list font) (s : SunLCD) : SunLCD :=
  mkSunLCD (ser s) (ok s) (response_body s) (_buf s) (cursor s) (img_list s)
    (img_offset s) v (current_orientation s) (standard_width s)
    (standard_height s).

Definition set_current_orientation (v : Z) (s : SunLCD) : SunLCD :=
  mkSunLCD (ser s) (ok s) (response_body s) (_buf s) (cursor s) (img_list s)
    (img_offset s) (font_list s) v (standard_width s) (standard_height s).

(** ** Serial processing methods *)

(** The [while self.ser.inWaiting() > 0] loop of [ReadBack], run over the
    bytes [chunk] it reads: a line feed closes a response (the stripped
    buffer) and empties the buffer, any other byte is appended to it. *)
Fixpoint ReadBack_scan (chunk : string) (buf : string) (responses : list string)
  : list string * string :=
  match chunk with
  | EmptyString => (responses, buf)
  | String c rest =>
      if is_lf c
      then ReadBack_scan rest EmptyString (responses ++ [strip buf])
      else ReadBack_scan rest (buf +:+ String c EmptyString) responses
  end.

(** The [for response in responses] loop of [ReadBack]. *)
Fixpoint ReadBack_classify (responses : list string) (s : SunLCD) : SunLCD :=
  match responses with
  | [] => s
  | response :: rest =>
      let s1 := if String.eqb response "OK" then set_ok true s else s in
      ReadBack_classify rest (set_response_body response s1)
  end.

(** The local list [responses] that one call of [ReadBack] builds. *)
Definition ReadBack_responses (s : SunLCD) : list string :=
  fst (ReadBack_scan (fst (Serial_drain (ser s))) (_buf s) []).

(** [ReadBack]: [Some true] is Python's [True], [None] is Python's [None]. *)
Definition ReadBack (s : SunLCD) : option bool * SunLCD :=
  let '(chunk, p) := Serial_drain (ser s) in
  let '(responses, buf) := ReadBack_scan chunk (_buf s) [] in
  let s1 := set_buf buf (set_ser p s) in
  if (length responses =? 0)%nat then (None, s1)
  else (Some true, ReadBack_classify responses s1).

(** The [while i > 0] loop of [send_serial]; [i] is the loop counter. *)
Fixpoint send_serial_loop (i : nat) (s : SunLCD) : bool * SunLCD :=
  match i with
  | O => (false, s)
  | S i' =>
      let s1 := set_ser (Serial_sleep 100 (ser s)) s in
      let '(res, s2) := ReadBack s1 in
      match res with
      | Some _ => (true, s2)
      | None => send_serial_loop i' s2
      end
  end.

Definition send_serial (cmd : string) (s : SunLCD) : bool * SunLCD :=
  let s1 := set_ok false s in
  let s2 := set_response_body EmptyString s1 in
  let s3 := set_ser (Serial_write (cmd +:+ CRLF) (ser s2)) s2 in
  send_serial_loop 10 s3.

(** ** Internal LCD methods (the command encoder) *)

Definition Reset (s : SunLCD) : bool * SunLCD := send_serial "RESET" s.

Definition Version (s : SunLCD) : bool * SunLCD := send_serial "VER" s.

Definition Baudrate (baudrate : Z) (s : SunLCD) : bool * SunLCD :=
  let '(res, s1) := send_serial ("BPS(" +:+ str baudrate +:+ ")") s in
  (res, set_ser (Serial_reopen baudrate (ser s1)) s1).

Definition Clear (color : Z) (s : SunLCD) : bool * SunLCD :=
  send_serial ("CLR(" +:+ str color +:+ ")") s.

(** The argument of [On]: the driver tests [on_off is False] and
    [on_off == 0], so the model keeps booleans, integers and floats apart
    ([False == 0], [0 == 0], [0.0 == 0] and [-0.0 == 0] hold, a NaN
    equals nothing); [OnOther] is any object that does not compare equal
    to 0, such as [None] or a string. *)
Inductive on_off_arg :=
| OnBool (b : bool)
| OnInt (z : Z)
| OnFloat (f : spec_float)
| OnOther.

Definition On (on_off : on_off_arg) (s : SunLCD) : bool * SunLCD :=
  let off :=
    match on_off with
    | OnBool b => negb b
    | OnInt z => z =? 0
    | OnFloat f => match f with S754_zero _ => true | _ => false end
    | OnOther => false
    end in
  if off then send_serial "LCDON(0)" s else send_serial "LCDON(1)" s.

Definition FSIMG (address : Z) (position size : Z * Z) (transparent : Z) : string :=
  "FSIMG(" +:+ str address +:+ "," +:+ str (fst position) +:+ "," +:+
  str (snd position) +:+ "," +:+ str (fst size) +:+ "," +:+ str (snd size) +:+
  "," +:+ str transparent +:+ ")".

Definition RawImage (address : Z) (position size : Z * Z) (transparent : Z)
    (s : SunLCD) : bool * SunLCD :=
  send_serial (FSIMG address position size transparent) s.

Definition Orientation (orientation : Z) (s : SunLCD) : bool * SunLCD :=
  if orientation =? 0 then
    send_serial "DIR(0)" (set_current_orientation orientation s)
  else if orientation =? 1 then
    send_serial "DIR(1)" (set_current_orientation orientation s)
  else (false, s).

(** *** Brightness and its float arithmetic *)

(** Python floats are IEEE-754 binary64. *)
Definition prec64 : Z := 53.
Definition emax64 : Z := 1024.

Definition float_of_Z (z : Z) : spec_float :=
  binary_normalize prec64 emax64 z 0 false.

(** The argument of [Brightness]: an integer, a float, or an object that
    [float()] rejects (raising [TypeError] or [ValueError]). *)
Inductive level_arg := LInt (z : Z) | LFloat (f : spec_float) | LBad.

(** [float(level)] *)
Definition py_float (level : level_arg) : result spec_float :=
  match level with
  | LInt z =>
      match float_of_Z z with
      | S754_infinity _ => Raise OverflowError
      | f => Ret f
      end
  | LFloat f => Ret f
  | LBad => Raise TypeError
  end.

(** [int(f)] on a float: truncation toward zero; infinities and NaN raise. *)
Definition py_int (f : spec_float) : result Z :=
  match f with
  | S754_zero _ => Ret 0
  | S754_infinity _ => Raise OverflowError
  | S754_nan => Raise ValueError
  | S754_finite sg m e => Ret (cond_Zopp sg (Z.shiftl (Z.pos m) e))
  end.

(** The expression [int( (1.0 - float(level))*255 )] of [Brightness]. *)
Definition Brightness_bl_val (level : level_arg) : result Z :=
  match py_float level with
  | Raise e => Raise e
  | Ret f =>
      py_int (SFmul prec64 emax64
                (SFsub prec64 emax64 (float_of_Z 1) f) (float_of_Z 255))
  end.

Definition Brightness (level : level_arg) (s : SunLCD) : bool * SunLCD :=
  match Brightness_bl_val level with
  | Raise _ => (false, s)
  | Ret bl_val =>
      let bl_val := if bl_val <? 0 then 0 else bl_val in
      let bl_val := if bl_val >? 255 then 255 else bl_val in
      send_serial ("BL(" +:+ str bl_val +:+ ")") s
  end.

Definition Point (location : Z * Z) (color : Z) (s : SunLCD) : bool * SunLCD :=
  send_serial ("PS(" +:+ str (fst location) +:+ "," +:+ str (snd location) +:+
               "," +:+ str color +:+ ")") s.

(** The four-coordinate commands [PL], [BOX] and [BOXF] share one shape. *)
Definition cmd4 (name : string) (a b : Z * Z) (color : Z) : string :=
  name +:+ "(" +:+ str (fst a) +:+ "," +:+ str (snd a) +:+ "," +:+
  str (fst b) +:+ "," +:+ str (snd b) +:+ "," +:+ str color +:+ ")".

Definition Line (origin destination : Z * Z) (color : Z) (s : SunLCD)
  : bool * SunLCD :=
  send_serial (cmd4 "PL" origin destination color) s.

Definition HollowBox (top_left bottom_right : Z * Z) (color : Z) (s : SunLCD)
  : bool * SunLCD :=
  send_serial (cmd4 "BOX" top_left bottom_right color) s.

Definition FilledBox (top_left bottom_right : Z * Z) (color : Z) (s : SunLCD)
  : bool * SunLCD :=
  send_serial (cmd4 "BOXF" top_left bottom_right color) s.

Definition cmd_circle (name : string) (center : Z * Z) (radius color : Z) : string :=
  name +:+ "(" +:+ str (fst center) +:+ "," +:+ str (snd center) +:+ "," +:+
  str radius +:+ "," +:+ str color +:+ ")".

Definition HollowCircle (center : Z * Z) (radius color : Z) (s : SunLCD)
  : bool * SunLCD :=
  send_serial (cmd_circle "CIR" center radius color) s.

Definition FilledCircle (center : Z * Z) (radius color : Z) (s : SunLCD)
  : bool * SunLCD :=
  send_serial (cmd_circle "CIRF" center radius color) s.

Definition Background (color : Z) (s : SunLCD) : bool * SunLCD :=
  send_serial ("SBC(" +:+ str color +:+ ")") s.

Definition cmd_text (name : string) (location : Z * Z) (text : string) (color : Z)
  : string :=
  name +:+ "(" +:+ str (fst location) +:+ "," +:+ str (snd location) +:+ ",'" +:+
  text +:+ "'," +:+ str color +:+ ")".

Definition TextSmall (location : Z * Z) (text : string) (color : Z) (s : SunLCD)
  : bool * SunLCD :=
  send_serial (cmd_text "DCV16" location text color) s.

Definition TextMedium (location : Z * Z) (text : string) (color : Z) (s : SunLCD)
  : bool * SunLCD :=
  send_serial (cmd_text "DCV24" location text color) s.

Definition TextLarge (location : Z * Z) (text : string) (color : Z) (s : SunLCD)
  : bool * SunLCD :=
  send_serial (cmd_text "DCV32" location text color) s.

(** ** The constructor *)

(** [SunLCD(port, width, height)]: [port] is the freshly opened serial
    port. *)
Definition init (port : Serial) (width height : Z) : SunLCD :=
  let s := mkSunLCD port false EmptyString EmptyString (0, 0) [] 2097152 []
             VERTICAL width height in
  let s := set_ser (Serial_write CRLF (ser s)) s in
  let '(res, s) := Reset s in
  if res then snd (Background COLOR_BLACK s) else s.

(** ** Object-level methods *)

(** A position argument as the cursor methods see it: they test
    [isinstance(position, tuple) or isinstance(position, list)] and
    [len(position)]. *)
Inductive position_arg :=
| PyTuple (items : list Z)
| PyList (items : list Z)
| PyOther.

Definition position_items (position : position_arg) : option (Z * Z) :=
  match position with
  | PyTuple [x; y] | PyList [x; y] => Some (x, y)
  | _ => None
  end.

Definition MoveTo (position : position_arg) (s : SunLCD) : bool * SunLCD :=
  match position_items position with
  | Some (x, y) =>
      let s1 := set_cursor (x, snd (cursor s)) s in
      let s2 := set_cursor (fst (cursor s1), y) s1 in
      (true, s2)
  | None => (false, s)
  end.

(** [LineTo] returns [None] (Python's [None]) when the position check
    fails, as the method then falls off its end. *)
Definition LineTo (position : position_arg) (color : Z) (s : SunLCD)
  : option bool * SunLCD :=
  match position_items position with
  | Some p =>
      let '(res, s1) := Line (cursor s) p color s in
      if res then
        let '(r, s2) := MoveTo position s1 in (Some r, s2)
      else (Some false, s1)
  | None => (None, s)
  end.

Definition ListImage (size : Z * Z) (s : SunLCD) : Z * SunLCD :=
  let byte_len := fst size * snd size * 2 in
  let s1 := set_img_list (img_list s ++ [(img_offset s, size)]) s in
  let s2 := set_img_offset (img_offset s1 + byte_len) s1 in
  (Z.of_nat (length (img_list s2)) - 1, s2).

(** The default [char_list] of [ListFont]: the bytes 0x20 .. 0x7E in
    order. *)
Definition default_char_list : string :=
  string_of_list_ascii (map ascii_of_nat (seq 32 95)).

(** The [for c in char_list] loop of [ListFont]. *)
Fixpoint ListFont_loop (char_size : Z * Z) (char_list : string)
    (this_font : font) (s : SunLCD) : font * SunLCD :=
  match char_list with
  | EmptyString => (this_font, s)
  | String c rest =>
      let '(id, s1) := ListImage char_size s in
      ListFont_loop char_size rest (<[c := id]> this_font) s1
  end.

Definition ListFont (char_size : Z * Z) (char_list : string) (s : SunLCD)
  : Z * SunLCD :=
  let '(this_font, s1) := ListFont_loop char_size char_list ∅ s in
  let s2 := set_font_list (font_list s1 ++ [this_font]) s1 in
  (Z.of_nat (length (font_list s2)) - 1, s2).

Definition ShowImage (image_id : Z) (position : Z * Z) (transparent : Z)
    (s : SunLCD) : result bool * SunLCD :=
  if image_id >? Z.of_nat (length (img_list s)) - 1 then (Ret false, s)
  else
    match index (img_list s) image_id with
    | Raise e => (Raise e, s)
    | Ret img_info =>
        let '(res, s1) := RawImage (fst img_info) position (snd img_info) transparent s in
        (Ret res, s1)
    end.

(** The [for c in text] loop of [TextFont] together with the final flush
    after it.  [x], [y], [i] and [send_str] are the loop's variables. *)
Fixpoint TextFont_loop (this_font : font) (transparent lcd_w lcd_h : Z)
    (text : string) (x y i : Z) (send_str : string) (s : SunLCD)
  : result bool * SunLCD :=
  match text with
  | EmptyString =>
      if len send_str >? 0 then
        let '(res, s1) := send_serial send_str s in (Ret res, s1)
      else (Ret true, s)
  | String c rest =>
      match this_font !! c with
      | None => TextFont_loop this_font transparent lcd_w lcd_h rest x y i send_str s
      | Some char_img_id =>
          match index (img_list s) char_img_id with
          | Raise e => (Raise e, s)
          | Ret img_info =>
              let char_size := snd img_info in
              let send_str :=
                send_str +:+ FSIMG (fst img_info) (x, y) char_size transparent +:+ ";" in
              let x := x + fst char_size in
              let '(x, y) :=
                if x >=? lcd_w - fst char_size then
                  let y := y + snd char_size in
                  (0, if y >=? lcd_h - snd char_size then 0 else y)
                else (x, y) in
              let i := i + 1 in
              if i >=? 16 then
                let '(res, s1) := send_serial send_str s in
                if res then
                  TextFont_loop this_font transparent lcd_w lcd_h rest x y 0
                    EmptyString s1
                else (Ret false, s1)
              else
                TextFont_loop this_font transparent lcd_w lcd_h rest x y i send_str s
          end
      end
  end.

(** Logical width and height after the orientation swap. *)
Definition lcd_dims (s : SunLCD) : Z * Z :=
  if current_orientation s =? HORIZONTAL
  then (standard_height s, standard_width s)
  else (standard_width s, standard_height s).

Definition TextFont (font_id : Z) (position : Z * Z) (text : string)
    (transparent : Z) (s : SunLCD) : result bool * SunLCD :=
  if font_id >? Z.of_nat (length (font_list s)) - 1 then (Ret false, s)
  else
    match index (font_list s) font_id with
    | Raise e => (Raise e, s)
    | Ret this_font =>
        let '(lcd_w, lcd_h) := lcd_dims s in
        TextFont_loop this_font transparent lcd_w lcd_h text
          (fst position) (snd position) 0 EmptyString s
    end.

(** * Vocabulary of the statements *)

(** The strings written to the port, oldest first. *)
Fixpoint writes (tr : list event) : list string :=
  match tr with
  | [] => []
  | EvWrite data :: tr' => data :: writes tr'
  | _ :: tr' => writes tr'
  end.

(** The bytes waiting at the [j]-th drain from now; nothing once the
    schedule is exhausted. *)
Definition chunk_at (p : Serial) (j : nat) : string := nth j (rx p) EmptyString.

Definition chunks_upto (k : nat) (p : Serial) : list string :=
  map (chunk_at p) (seq 0 k).

(** A chunk completes a response line iff it contains a line feed. *)
Fixpoint has_line (chunk : string) : bool :=
  match chunk with
  | EmptyString => false
  | String c rest => is_lf c || has_line rest
  end.

(** What [k] polls of [send_serial] leave in the trace. *)
Definition poll_events (chunks : list string) : list event :=
  flat_map (fun c => [EvSleep 100; EvDrain c]) chunks.

Definition concat_str (l : list string) : string :=
  fold_right String.append EmptyString l.

(** The attributes that no serial exchange touches. *)
Definition frame (s s' : SunLCD) : Prop :=
  cursor s' = cursor s /\ img_list s' = img_list s /\
  img_offset s' = img_offset s /\ font_list s' = font_list s /\
  current_orientation s' = current_orientation s /\
  standard_width s' = standard_width s /\
  standard_height s' = standard_height s.

(** Every operation of the class, as a caller can invoke it. *)
Inductive op :=
| OpReadBack
| OpSendSerial (cmd : string)
| OpReset
| OpVersion
| OpBaudrate (baudrate : Z)
| OpClear (color : Z)
| OpOn (on_off : on_off_arg)
| OpRawImage (address : Z) (position size : Z * Z) (transparent : Z)
| OpOrientation (orientation : Z)
| OpBrightness (level : level_arg)
| OpPoint (location : Z * Z) (color : Z)
| OpLine (origin destination : Z * Z) (color : Z)
| OpHollowBox (top_left bottom_right : Z * Z) (color : Z)
| OpFilledBox (top_left bottom_right : Z * Z) (color : Z)
| OpHollowCircle (center : Z * Z) (radius color : Z)
| OpFilledCircle (center : Z * Z) (radius color : Z)
| OpBackground (color : Z)
| OpTextSmall (location : Z * Z) (text : string) (color : Z)
| OpTextMedium (location : Z * Z) (text : string) (color : Z)
| OpTextLarge (location : Z * Z) (text : string) (color : Z)
| OpMoveTo (position : position_arg)
| OpLineTo (position : position_arg) (color : Z)
| OpListImage (size : Z * Z)
| OpListFont (char_size : Z * Z) (char_list : string)
| OpShowImage (image_id : Z) (position : Z * Z) (transparent : Z)
| OpTextFont (font_id : Z) (position : Z * Z) (text : string) (transparent : Z).

(** The session after an operation (also when the operation raised). *)
Definition run (o : op) (s : SunLCD) : SunLCD :=
  match o with
  | OpReadBack => snd (ReadBack s)
  | OpSendSerial cmd => snd (send_serial cmd s)
  | OpReset => snd (Reset s)
  | OpVersion => snd (Version s)
  | OpBaudrate b => snd (Baudrate b s)
  | OpClear c => snd (Clear c s)
  | OpOn a => snd (On a s)
  | OpRawImage a p sz t => snd (RawImage a p sz t s)
  | OpOrientation o => snd (Orientation o s)
  | OpBrightness l => snd (Brightness l s)
  | OpPoint l c => snd (Point l c s)
  | OpLine a b c => snd (Line a b c s)
  | OpHollowBox a b c => snd (HollowBox a b c s)
  | OpFilledBox a b c => snd (FilledBox a b c s)
  | OpHollowCircle c r col => snd (HollowCircle c r col s)
  | OpFilledCircle c r col => snd (FilledCircle c r col s)
  | OpBackground c => snd (Background c s)
  | OpTextSmall l t c => snd (TextSmall l t c s)
  | OpTextMedium l t c => snd (TextMedium l t c s)
  | OpTextLarge l t c => snd (TextLarge l t c s)
  | OpMoveTo p => snd (MoveTo p s)
  | OpLineTo p c => snd (LineTo p c s)
  | OpListImage sz => snd (ListImage sz s)
  | OpListFont sz cl => snd (ListFont sz cl s)
  | OpShowImage id p t => snd (ShowImage id p t s)
  | OpTextFont id p txt t => snd (TextFont id p txt t s)
  end.

(** A size is a (width, height) pair of pixel counts. *)
Definition valid_size (size : Z * Z) : Prop := 0 <= fst size /\ 0 <= snd size.

Definition positive_size (size : Z * Z) : Prop := 0 < fst size /\ 0 < snd size.

(** The sizes an operation registers are valid. *)
Definition valid_op (o : op) : Prop :=
  match o with
  | OpListImage size => valid_size size
  | OpListFont char_size _ => valid_size char_size
  | _ => True
  end.

(** [width*height*2], the bytes of a 16-bit image. *)
Definition byte_len (size : Z * Z) : Z := fst size * snd size * 2.

Definition sum_byte_len (sizes : list (Z * Z)) : Z :=
  fold_right (fun size acc => byte_len size + acc) 0 sizes.

(** A caller registering the images of [sizes] one after the other; the
    ids come back in order. *)
Fixpoint ListImage_all (sizes : list (Z * Z)) (s : SunLCD) : list Z * SunLCD :=
  match sizes with
  | [] => ([], s)
  | size :: rest =>
      let '(id, s1) := ListImage size s in
      let '(ids, s2) := ListImage_all rest s1 in
      (id :: ids, s2)
  end.

(** The entries a run of registrations must add when it starts with the
    cursor at [offset]: each image at the running sum of the byte lengths
    before it. *)
Fixpoint layout_from (offset : Z) (sizes : list (Z * Z)) : list (Z * (Z * Z)) :=
  match sizes with
  | [] => []
  | size :: rest => (offset, size) :: layout_from (offset + byte_len size) rest
  end.

(** The byte ranges [addr, addr + byte_len) of a registry, taken in
    registration order, do not overlap. *)
Definition no_overlap (imgs : list (Z * (Z * Z))) : Prop :=
  forall (i j : nat) (a b : Z * (Z * Z)),
    (i < j)%nat -> imgs !! i = Some a -> imgs !! j = Some b ->
    fst a + byte_len (snd a) <= fst b.

(** The silent device: nothing ever arrives. *)
Definition silent_port : Serial := mkSerial [] [].

(** A device that answers every drain of [n] with the OK line. *)
Definition ok_port (n : nat) : Serial := mkSerial (repeat ("OK" +:+ LF) n) [].

(** The cursor did not move back and the registry kept its entries. *)
Definition registry_grows (s s' : SunLCD) : Prop :=
  img_offset s <= img_offset s' /\ img_list s `prefix_of` img_list s'.

(** Sessions of the closed examples. *)
Definition quiet_session : SunLCD := init silent_port 240 320.

Definition answered_session : SunLCD := init (ok_port 3) 240 320.

(** *** Text layout vocabulary *)

(** A placed glyph: image address, draw position, glyph size. *)
Definition glyph : Type := Z * (Z * Z) * (Z * Z).

Definition glyph_pos (g : glyph) : Z * Z := snd (fst g).

(** The text [TextFont] appends to [send_str] for one glyph. *)
Definition glyph_cmd (transparent : Z) (g : glyph) : string :=
  FSIMG (fst (fst g)) (snd (fst g)) (snd g) transparent +:+ ";".

(** The command text of a group of glyphs. *)
Definition batch (transparent : Z) (gs : list glyph) : string :=
  concat_str (map (glyph_cmd transparent) gs).

(** The draw cursor of [TextFont] after a glyph of size [char_size] was
    placed at [(x, y)]: advance, line wrap, screen wrap. *)
Definition advance (lcd_w lcd_h : Z) (char_size : Z * Z) (x y : Z) : Z * Z :=
  let x := x + fst char_size in
  if x >=? lcd_w - fst char_size then
    let y := y + snd char_size in
    (0, if y >=? lcd_h - snd char_size then 0 else y)
  else (x, y).

(** The glyphs the loop of [TextFont] places, in order, for the registry
    [imgs]; [None] when a glyph's image id is not in the registry (the
    loop then raises). *)
Fixpoint TextFont_glyphs (this_font : font) (imgs : list (Z * (Z * Z)))
    (lcd_w lcd_h : Z) (text : string) (x y : Z) : option (list glyph) :=
  match text with
  | EmptyString => Some []
  | String c rest =>
      match this_font !! c with
      | None => TextFont_glyphs this_font imgs lcd_w lcd_h rest x y
      | Some char_img_id =>
          match index imgs char_img_id with
          | Raise _ => None
          | Ret img_info =>
              let '(x', y') := advance lcd_w lcd_h (snd img_info) x y in
              match TextFont_glyphs this_font imgs lcd_w lcd_h rest x' y' with
              | Some gs => Some ((fst img_info, (x, y), snd img_info) :: gs)
              | None => None
              end
          end
      end
  end.

(** The batching of the loop of [TextFont], seen on the glyphs it places:
    [i] and [send_str] are the loop's counter and buffer. *)
Fixpoint flush_glyphs (transparent : Z) (gs : list glyph) (i : Z)
    (send_str : string) (s : SunLCD) : result bool * SunLCD :=
  match gs with
  | [] =>
      if len send_str >? 0 then
        let '(res, s1) := send_serial send_str s in (Ret res, s1)
      else (Ret true, s)
  | g :: rest =>
      let send_str := send_str +:+ glyph_cmd transparent g in
      let i := i + 1 in
      if i >=? 16 then
        let '(res, s1) := send_serial send_str s in
        if res then flush_glyphs transparent rest 0 EmptyString s1
        else (Ret false, s1)
      else flush_glyphs transparent rest i send_str s
  end.

(** Successive groups of 16 glyphs, the last one possibly shorter. *)
Fixpoint groups_of_16 (fuel : nat) (gs : list glyph) : list (list glyph) :=
  match fuel, gs with
  | O, _ | _, [] => []
  | S fuel', _ => take 16 gs :: groups_of_16 fuel' (drop 16 gs)
  end.

Definition batches (gs : list glyph) : list (list glyph) :=
  groups_of_16 (length gs) gs.

(** One transmission per group, stopping with failure at the first one
    that times out. *)
Fixpoint send_batches (transparent : Z) (bs : list (list glyph)) (s : SunLCD)
  : result bool * SunLCD :=
  match bs with
  | [] => (Ret true, s)
  | b :: rest =>
      let '(res, s1) := send_serial (batch transparent b) s in
      if res then send_batches transparent rest s1 else (Ret false, s1)
  end.

(** How many of the glyphs sit on the line at height [y]. *)
Definition glyphs_on_line (y : Z) (gs : list glyph) : nat :=
  length (filter (fun g => snd (glyph_pos g) = y) gs).

(** The session of the text scenarios: a display 32 pixels wide, one font
    of 16x16 glyphs over the default character list. *)
Definition narrow_session (port : Serial) : SunLCD :=
  snd (ListFont (16, 16) default_char_list (init port 32 320)).

(** The font of the scenarios and the glyphs [TextFont] places for a text
    drawn from the origin. *)
Definition narrow_font (port : Serial) : font :=
  match index (font_list (narrow_session port)) 0 with
  | Ret f => f
  | Raise _ => ∅
  end.

Definition narrow_glyphs (port : Serial) (text : string) : list glyph :=
  default [] (TextFont_glyphs (narrow_font port)
                (img_list (narrow_session port)) 32 320 text 0 0).

(** A session with a two-character font. *)
Definition AB_session : SunLCD :=
  snd (ListFont (16, 16) "AB" quiet_session).

(** [c in this_font] for every character of [text]. *)
Definition all_in_font (this_font : font) (text : string) : bool :=
  forallb (fun c => match this_font !! c with Some _ => true | None => false end)
    (list_ascii_of_string text).

(** Every glyph of the font is a registered image of size [char_size]. *)
Definition font_ok (imgs : list (Z * (Z * Z))) (char_size : Z * Z)
    (this_font : font) : Prop :=
  forall c id, this_font !! c = Some id ->
    0 <= id /\ exists addr, imgs !! Z.to_nat id = Some (addr, char_size).

(** *** Brightness vocabulary *)

(** The binary64 value nearest to [m * 2^e] (exact for small [m]). *)
Definition dyadic (m e : Z) : spec_float :=
  binary_normalize prec64 emax64 m e false.

(** Clamping to the byte range, as the two [if] statements of [Brightness]
    do. *)
Definition clamp_byte (v : Z) : Z := Z.max 0 (Z.min 255 v).

(** The exact rational value of a finite float. *)
Definition Q_of_float (f : spec_float) : option Q :=
  match f with
  | S754_zero _ => Some 0%Q
  | S754_finite sg m e =>
      Some ((if sg then -1 else 1) * inject_Z (Z.pos m) * 2 ^ e)%Q
  | _ => None
  end.

(** [round(q)] as Python 2 rounds: to the nearest integer, halves away
    from zero. *)
Definition round_half_away (q : Q) : Z :=
  if Qle_bool 0 q then Qfloor (q + (1 # 2))%Q
  else - Qfloor (- q + (1 # 2))%Q.

(** The byte the specification's sentence describes:
    [round((1 - level) * 255)] clamped to [0, 255]. *)
Definition spec_level_byte (level : Q) : Z :=
  clamp_byte (round_half_away ((1 - level) * 255)%Q).

Definition stale_session : SunLCD :=
  mkSunLCD (mkSerial [("OK" +:+ LF); ("FOO" +:+ LF +:+ "BAR" +:+ LF)] [])
    false "stale" EmptyString (0, 0) [] 2097152 [] 0 240 320.

(** *** Vocabulary of the further properties *)

(** A caller running a sequence of operations. *)
Definition run_all (ops : list op) (s : SunLCD) : SunLCD :=
  fold_left (fun s o => run o s) ops s.

(** The two operations that register images. *)
Definition registers (o : op) : bool :=
  match o with
  | OpListImage _ | OpListFont _ _ => true
  | _ => false
  end.

(** The registries and the allocator cursor are the same. *)
Definition registry_frame (s s' : SunLCD) : Prop :=
  img_list s' = img_list s /\ img_offset s' = img_offset s /\
  font_list s' = font_list s.

(** Every image id of the font is an index into the registry. *)
Definition font_ids_ok (imgs : list (Z * (Z * Z))) (this_font : font) : Prop :=
  forall c id, this_font !! c = Some id -> 0 <= id < Z.of_nat (length imgs).

Definition fonts_ok (s : SunLCD) : Prop :=
  Forall (font_ids_ok (img_list s)) (font_list s).

(** The registry is the sequential layout of its own sizes from the base
    offset, and the cursor is just behind the last image. *)
Definition sequential (s : SunLCD) : Prop :=
  img_list s = layout_from 2097152 (map snd (img_list s)) /\
  img_offset s = 2097152 + sum_byte_len (map snd (img_list s)).

(** The position of the last occurrence of [c] in [l]. *)
Fixpoint last_pos (c : ascii) (l : list ascii) : option nat :=
  match l with
  | [] => None
  | x :: l' =>
      match last_pos c l' with
      | Some i => Some (S i)
      | None => if decide (x = c) then Some 0%nat else None
      end
  end.

(** The characters of [text] that are in the font, in order. *)
Fixpoint keep_in_font (this_font : font) (text : string) : string :=
  match text with
  | EmptyString => EmptyString
  | String c rest =>
      match this_font !! c with
      | Some _ => String c (keep_in_font this_font rest)
      | None => keep_in_font this_font rest
      end
  end.

(** A glyph of size [char_size] drawn at its position stays left of
    [lcd_w - width] and above [lcd_h - height]. *)
Definition on_screen (lcd_w lcd_h : Z) (char_size : Z * Z) (g : glyph) : Prop :=
  0 <= fst (glyph_pos g) < lcd_w - fst char_size /\
  0 <= snd (glyph_pos g) < lcd_h - snd char_size.

(** The font of the two-character session. *)
Definition AB_font : font :=
  match index (font_list AB_session) 0 with
  | Ret f => f
  | Raise _ => ∅
  end.

(** The operations that never touch the port's output. *)
Definition local_op (o : op) : bool :=
  match o with
  | OpReadBack | OpMoveTo _ | OpListImage _ | OpListFont _ _ => true
  | _ => false
  end.

Definition is_TextFont (o : op) : bool :=
  match o with
  | OpTextFont _ _ _ _ => true
  | _ => false
  end.

(** The lines written for a list of commands. *)
Definition lines (cmds : list string) : list string :=
  map (fun cmd => cmd +:+ CRLF) cmds.

(** * Proofs *)

Example str_examples :
  str 0 = "0" /\ str 2097152 = "2097152" /\ str (-5) = "-5".
Proof. repeat split; reflexivity. Qed.

Example strip_example :
  strip (String "013" (" OK " +:+ CRLF)) = "OK".
Proof. reflexivity. Qed.

Example FilledBox_command :
  cmd4 "BOXF" (0, 0) (10, 10) 3 = "BOXF(0,0,10,10,3)".
Proof. reflexivity. Qed.

(** ** Response reader *)

Lemma append_cons c (a b : string) : String c a +:+ b = String c (a +:+ b).
Proof. reflexivity. Qed.

Lemma append_empty_l (a : string) : EmptyString +:+ a = a.
Proof. reflexivity. Qed.

Lemma append_empty_r (a : string) : a +:+ EmptyString = a.
Proof.
  induction a as [|c a IH]; [reflexivity | now rewrite append_cons, IH].
Qed.

Lemma append_assoc (a b c : string) : (a +:+ b) +:+ c = a +:+ (b +:+ c).
Proof.
  induction a as [|x a IH]; [reflexivity | now rewrite !append_cons, IH].
Qed.

Lemma ReadBack_scan_no_line chunk : forall buf acc,
  has_line chunk = false ->
  ReadBack_scan chunk buf acc = (acc, buf +:+ chunk).
Proof.
  induction chunk as [|c rest IH]; intros buf acc H; simpl in *.
  - now rewrite append_empty_r.
  - apply orb_false_iff in H as [Hc Hr]. rewrite Hc, (IH _ _ Hr).
    now rewrite append_assoc.
Qed.

Lemma ReadBack_scan_grows chunk : forall buf acc,
  (length acc <= length (fst (ReadBack_scan chunk buf acc)))%nat.
Proof.
  induction chunk as [|c rest IH]; intros buf acc; simpl; [lia|].
  destruct (is_lf c).
  - specialize (IH EmptyString (acc ++ [strip buf])).
    rewrite length_app in IH. simpl in IH. lia.
  - apply IH.
Qed.

Lemma ReadBack_scan_line chunk : forall buf acc,
  has_line chunk = true ->
  (length acc < length (fst (ReadBack_scan chunk buf acc)))%nat.
Proof.
  induction chunk as [|c rest IH]; intros buf acc H; simpl in *; [discriminate|].
  destruct (is_lf c); simpl in H.
  - pose proof (ReadBack_scan_grows rest EmptyString (acc ++ [strip buf])) as G.
    rewrite length_app in G. simpl in G. lia.
  - now apply IH.
Qed.

(** The accumulator of the scan is only ever extended. *)
Lemma ReadBack_scan_acc chunk : forall buf acc,
  ReadBack_scan chunk buf acc =
  (acc ++ fst (ReadBack_scan chunk buf []), snd (ReadBack_scan chunk buf [])).
Proof.
  induction chunk as [|c rest IH]; intros buf acc; simpl.
  - now rewrite app_nil_r.
  - destruct (is_lf c).
    + rewrite (IH EmptyString (acc ++ [strip buf])), (IH EmptyString [strip buf]).
      simpl. now rewrite <- app_assoc.
    + apply IH.
Qed.

Lemma ReadBack_classify_frame rs : forall s,
  frame s (ReadBack_classify rs s) /\
  ser (ReadBack_classify rs s) = ser s /\
  _buf (ReadBack_classify rs s) = _buf s.
Proof.
  induction rs as [|r rs IH]; intros s; simpl.
  - unfold frame; tauto.
  - destruct (IH (set_response_body r
                    (if String.eqb r "OK" then set_ok true s else s)))
      as [(H1 & H2 & H3 & H4 & H5 & H6 & H7) [H8 H9]].
    unfold frame. rewrite H1, H2, H3, H4, H5, H6, H7, H8, H9.
    destruct (String.eqb r "OK"); simpl; tauto.
Qed.

Lemma ReadBack_classify_ok rs : forall s,
  ok (ReadBack_classify rs s) = ok s || existsb (fun r => String.eqb r "OK") rs.
Proof.
  induction rs as [|r rs IH]; intros s; simpl.
  - now rewrite orb_false_r.
  - rewrite IH. destruct (String.eqb r "OK"); simpl.
    + now rewrite orb_true_r.
    + reflexivity.
Qed.

Lemma ReadBack_classify_body rs : forall s,
  response_body (ReadBack_classify rs s) = default (response_body s) (last rs).
Proof.
  induction rs as [|r rs IH]; intros s; simpl; [reflexivity|].
  rewrite IH. destruct rs as [|r' rs]; [reflexivity|].
  change (last (r :: r' :: rs)) with (last (r' :: rs)).
  destruct (last (r' :: rs)) eqn:E; [reflexivity|].
  apply last_None in E. discriminate.
Qed.

Lemma chunk_at_drain p j :
  chunk_at (snd (Serial_drain p)) j = chunk_at p (S j).
Proof.
  unfold chunk_at, Serial_drain. destruct (rx p) as [|c rest]; simpl.
  - now destruct j.
  - reflexivity.
Qed.

Lemma Serial_drain_fst p : fst (Serial_drain p) = chunk_at p 0.
Proof. unfold chunk_at, Serial_drain. now destruct (rx p). Qed.

Lemma Serial_drain_trace p :
  trace (snd (Serial_drain p)) = trace p ++ [EvDrain (chunk_at p 0)].
Proof. unfold chunk_at, Serial_drain. now destruct (rx p). Qed.

Lemma chunks_upto_S k p :
  chunks_upto (S k) p = chunk_at p 0 :: chunks_upto k (snd (Serial_drain p)).
Proof.
  unfold chunks_upto. simpl. f_equal.
  rewrite <- seq_shift, map_map. apply map_ext. intros j.
  now rewrite chunk_at_drain.
Qed.

(** One call of [ReadBack] when the waiting bytes hold no line feed: the
    bytes join the pending buffer and the call answers [None]. *)
Lemma ReadBack_silent s :
  has_line (chunk_at (ser s) 0) = false ->
  ReadBack s =
  (None, set_buf (_buf s +:+ chunk_at (ser s) 0)
           (set_ser (snd (Serial_drain (ser s))) s)).
Proof.
  intros H. unfold ReadBack.
  rewrite <- Serial_drain_fst in *.
  destruct (Serial_drain (ser s)) as [chunk p]; simpl in *.
  now rewrite (ReadBack_scan_no_line _ _ _ H).
Qed.

(** One call of [ReadBack] when the waiting bytes hold a line feed. *)
Lemma ReadBack_answer s :
  has_line (chunk_at (ser s) 0) = true ->
  ReadBack_responses s <> [] /\
  ReadBack s =
  (Some true,
   ReadBack_classify (ReadBack_responses s)
     (set_buf (snd (ReadBack_scan (chunk_at (ser s) 0) (_buf s) []))
        (set_ser (snd (Serial_drain (ser s))) s))).
Proof.
  intros H. unfold ReadBack, ReadBack_responses.
  rewrite <- Serial_drain_fst in *.
  destruct (Serial_drain (ser s)) as [chunk p]; simpl in *.
  pose proof (ReadBack_scan_line chunk (_buf s) [] H) as L.
  destruct (ReadBack_scan chunk (_buf s) []) as [rs buf]; simpl in *.
  destruct rs as [|r rs]; [simpl in L; lia|]. split; [discriminate|].
  reflexivity.
Qed.

Lemma frame_refl s : frame s s.
Proof. unfold frame; tauto. Qed.

Lemma frame_trans s1 s2 s3 : frame s1 s2 -> frame s2 s3 -> frame s1 s3.
Proof. unfold frame. intuition congruence. Qed.

(** ** Command channel *)

(** The polling loop, for any budget [i]: it performs [k <= i] polls, each a
    100 ms sleep followed by a drain; no poll before the last completes a
    line; it answers [true] exactly when the last poll does, and then the
    flags are those the classification of that poll's lines gives; when it
    answers [false] it used the whole budget and only the pending buffer
    changed. *)
Lemma send_serial_loop_spec i : forall s,
  exists k : nat, (k <= i)%nat /\
    trace (ser (snd (send_serial_loop i s))) =
      trace (ser s) ++ poll_events (chunks_upto k (ser s)) /\
    frame s (snd (send_serial_loop i s)) /\
    (forall j, (j + 1 < k)%nat -> has_line (chunk_at (ser s) j) = false) /\
    if fst (send_serial_loop i s) then
      exists k', k = S k' /\ has_line (chunk_at (ser s) k') = true /\
        let rs := fst (ReadBack_scan (chunk_at (ser s) k')
                         (_buf s +:+ concat_str (chunks_upto k' (ser s))) []) in
        rs <> [] /\
        ok (snd (send_serial_loop i s)) =
          ok s || existsb (fun r => String.eqb r "OK") rs /\
        last rs = Some (response_body (snd (send_serial_loop i s)))
    else
      k = i /\
      (forall j, (j < i)%nat -> has_line (chunk_at (ser s) j) = false) /\
      ok (snd (send_serial_loop i s)) = ok s /\
      response_body (snd (send_serial_loop i s)) = response_body s /\
      _buf (snd (send_serial_loop i s)) =
        _buf s +:+ concat_str (chunks_upto i (ser s)).
Proof.
  induction i as [|i IH]; intros s.
  - exists 0%nat. simpl. rewrite app_nil_r, append_empty_r.
    repeat split; try reflexivity; try lia; intros; lia.
  - cbn [send_serial_loop].
    set (s1 := set_ser (Serial_sleep 100 (ser s)) s).
    assert (C : forall j, chunk_at (ser s1) j = chunk_at (ser s) j) by reflexivity.
    destruct (has_line (chunk_at (ser s) 0)) eqn:H0.
    + (* the first poll completes a line *)
      destruct (ReadBack_answer s1) as [Hne Heq]; [now rewrite C|].
      rewrite Heq. cbn [fst snd].
      set (s2 := set_buf _ _) in *.
      destruct (ReadBack_classify_frame (ReadBack_responses s1) s2)
        as [Hf [Hser Hbuf]].
      exists 1%nat. split; [lia|]. split.
      { rewrite Hser. subst s2 s1. simpl. rewrite Serial_drain_trace. simpl.
        rewrite <- app_assoc. reflexivity. }
      split. { eapply frame_trans; [|exact Hf]. subst s2 s1. unfold frame; simpl; tauto. }
      split. { intros; lia. }
      exists 0%nat. split; [reflexivity|]. split; [exact H0|].
      cbn zeta. unfold chunks_upto. simpl. rewrite append_empty_r.
      assert (R : ReadBack_responses s1 =
                  fst (ReadBack_scan (chunk_at (ser s) 0) (_buf s) [])).
      { unfold ReadBack_responses. rewrite Serial_drain_fst. reflexivity. }
      rewrite <- R. split; [exact Hne|]. split.
      * rewrite ReadBack_classify_ok. reflexivity.
      * rewrite ReadBack_classify_body.
        destruct (last (ReadBack_responses s1)) eqn:E; [reflexivity|].
        apply last_None in E. contradiction.
    + (* nothing complete yet: the loop goes on *)
      rewrite (ReadBack_silent s1) by now rewrite C.
      set (s2 := set_buf _ _).
      destruct (IH s2) as (k & Hk & Htr & Hfr & Hno & Hres).
      assert (C2 : forall j, chunk_at (ser s2) j = chunk_at (ser s) (S j)).
      { intros j. subst s2 s1. simpl. now rewrite chunk_at_drain. }
      assert (U : forall n, chunks_upto (S n) (ser s) =
                            chunk_at (ser s) 0 :: chunks_upto n (ser s2)).
      { intros n. unfold chunks_upto. simpl. f_equal.
        rewrite <- seq_shift, map_map. apply map_ext. intros j.
        now rewrite C2. }
      exists (S k). split; [lia|]. split.
      { rewrite Htr, U. unfold s2 at 1. unfold s1. simpl.
        rewrite Serial_drain_trace. simpl. rewrite <- !app_assoc. reflexivity. }
      split. { eapply frame_trans; [|exact Hfr]. subst s2 s1. unfold frame; simpl; tauto. }
      split.
      { intros [|j] Hj; [exact H0|]. rewrite <- C2. apply Hno. lia. }
      destruct (fst (send_serial_loop i s2)).
      * destruct Hres as (k' & -> & Hl & Hrs).
        exists (S k'). split; [reflexivity|]. split; [now rewrite <- C2|].
        rewrite U. simpl. rewrite <- C2, <- append_assoc. exact Hrs.
      * destruct Hres as (-> & Hall & Hok & Hbody & Hbuf).
        split; [reflexivity|]. split.
        { intros [|j] Hj; [exact H0|]. rewrite <- C2. apply Hall. lia. }
        split; [exact Hok|]. split; [exact Hbody|].
        rewrite Hbuf, U. simpl. rewrite <- append_assoc. reflexivity.
Qed.

(** A buffer-and-chunk prefix without line feed, then a line feed: the scan
    emits the stripped prefix and restarts on the remainder with an empty
    buffer. *)
Lemma ReadBack_scan_split a : forall b buf acc,
  has_line a = false ->
  ReadBack_scan (a +:+ LF +:+ b) buf acc =
  ReadBack_scan b EmptyString (acc ++ [strip (buf +:+ a)]).
Proof.
  induction a as [|c a IH]; intros b buf acc H.
  - rewrite append_empty_l, append_empty_r. reflexivity.
  - simpl in H. apply orb_false_iff in H as [Hc Ha].
    rewrite append_cons. simpl. rewrite Hc, (IH _ _ _ Ha), append_assoc.
    reflexivity.
Qed.

(** C1. [send_serial] resets the acknowledgement flag and the status text,
    writes the command followed by CRLF, then polls at most 10 times with a
    100 ms sleep before each poll.  It answers [true] at the first poll that
    completes at least one line, whatever the line is (the flag and status
    are then those of that poll's lines, so the flag is set only if one of
    them is the OK token); it answers [false], as an ordinary return value,
    when none of the 10 polls completes a line, and then the flag is false
    and the status empty. *)
Theorem send_serial_protocol (cmd : string) (s : SunLCD) :
  exists k : nat, (k <= 10)%nat /\
    trace (ser (snd (send_serial cmd s))) =
      trace (ser s) ++
      EvWrite (cmd +:+ CRLF) :: poll_events (chunks_upto k (ser s)) /\
    (forall j, (j + 1 < k)%nat -> has_line (chunk_at (ser s) j) = false) /\
    if fst (send_serial cmd s) then
      exists k', k = S k' /\ has_line (chunk_at (ser s) k') = true /\
        let rs := fst (ReadBack_scan (chunk_at (ser s) k')
                         (_buf s +:+ concat_str (chunks_upto k' (ser s))) []) in
        rs <> [] /\
        ok (snd (send_serial cmd s)) =
          existsb (fun r => String.eqb r "OK") rs /\
        last rs = Some (response_body (snd (send_serial cmd s)))
    else
      k = 10%nat /\
      (forall j, (j < 10)%nat -> has_line (chunk_at (ser s) j) = false) /\
      ok (snd (send_serial cmd s)) = false /\
      response_body (snd (send_serial cmd s)) = EmptyString.
Proof.
  unfold send_serial.
  set (s3 := set_ser _ _).
  destruct (send_serial_loop_spec 10 s3) as (k & Hk & Htr & _ & Hno & Hres).
  exists k. split; [exact Hk|]. split.
  { rewrite Htr. subst s3. simpl. rewrite <- app_assoc. reflexivity. }
  split; [exact Hno|].
  destruct (fst (send_serial_loop 10 s3)).
  - destruct Hres as (k' & -> & Hl & Hne & Hok & Hlast).
    exists k'. repeat split; assumption.
  - destruct Hres as (-> & Hall & Hok & Hbody & _).
    repeat split; assumption.
Qed.

(** The flags after any call of [ReadBack]: the acknowledgement flag is
    raised only by a line equal to OK, and the status is the last line
    received, if any. *)
Lemma ReadBack_flags s :
  ok (snd (ReadBack s)) =
    ok s || existsb (fun r => String.eqb r "OK") (ReadBack_responses s) /\
  response_body (snd (ReadBack s)) =
    default (response_body s) (last (ReadBack_responses s)).
Proof.
  unfold ReadBack, ReadBack_responses.
  destruct (Serial_drain (ser s)) as [chunk p]. cbn [fst].
  destruct (ReadBack_scan chunk (_buf s) []) as [rs buf]. cbn [fst].
  destruct rs as [|r rs].
  - cbn. now rewrite orb_false_r.
  - cbn [length Nat.eqb snd].
    rewrite ReadBack_classify_ok, ReadBack_classify_body. split; reflexivity.
Qed.

(** C2. Feeding the reader [OK\n] and then [FOO\nBAR\n] in two successive
    calls emits the lines OK, then FOO and BAR.  The acknowledgement flag,
    false before, is true after the first call and stays true; the status
    text is OK after the first call and BAR after the second, each line
    overwriting the previous one; the pending buffer is empty after each
    call.  In general a line is the pending buffer extended up to, and
    without, the line feed, stripped of surrounding whitespace, and the
    scan goes on with the remainder and an empty buffer; a call raises the
    flag only if one of its lines is OK and leaves the last of its lines as
    status. *)
Theorem ReadBack_OK_FOO_BAR (s : SunLCD) (rest : list string) :
  ok s = false ->
  _buf s = EmptyString ->
  rx (ser s) = ("OK" +:+ LF) :: ("FOO" +:+ LF +:+ "BAR" +:+ LF) :: rest ->
  let r1 := ReadBack s in
  let r2 := ReadBack (snd r1) in
  (ReadBack_responses s = ["OK"] /\ fst r1 = Some true /\
   ok (snd r1) = true /\ response_body (snd r1) = "OK" /\
   _buf (snd r1) = EmptyString) /\
  (ReadBack_responses (snd r1) = ["FOO"; "BAR"] /\ fst r2 = Some true /\
   ok (snd r2) = true /\ response_body (snd r2) = "BAR" /\
   _buf (snd r2) = EmptyString) /\
  (forall a b buf acc, has_line a = false ->
     ReadBack_scan (a +:+ LF +:+ b) buf acc =
     ReadBack_scan b EmptyString (acc ++ [strip (buf +:+ a)])) /\
  (forall s',
     ok (snd (ReadBack s')) =
       ok s' || existsb (fun r => String.eqb r "OK") (ReadBack_responses s') /\
     response_body (snd (ReadBack s')) =
       default (response_body s') (last (ReadBack_responses s'))).
Proof.
  intros Hok Hbuf Hrx r1 r2.
  assert (E1 : r1 = (Some true,
                     set_response_body "OK" (set_ok true
                       (set_buf EmptyString
                          (set_ser (snd (Serial_drain (ser s))) s))))).
  { subst r1. unfold ReadBack, Serial_drain. rewrite Hrx, Hbuf. reflexivity. }
  assert (R1 : ReadBack_responses s = ["OK"]).
  { unfold ReadBack_responses, Serial_drain. rewrite Hrx, Hbuf. reflexivity. }
  assert (D : rx (ser (snd r1)) = ("FOO" +:+ LF +:+ "BAR" +:+ LF) :: rest).
  { rewrite E1. unfold Serial_drain. rewrite Hrx. reflexivity. }
  split; [rewrite E1; repeat split; assumption || reflexivity|].
  split.
  - assert (B : _buf (snd r1) = EmptyString) by now rewrite E1.
    assert (O : ok (snd r1) = true) by now rewrite E1.
    assert (E2 : r2 = (Some true,
                       set_response_body "BAR" (set_response_body "FOO"
                         (set_buf EmptyString
                            (set_ser (snd (Serial_drain (ser (snd r1))))
                               (snd r1)))))).
    { subst r2. unfold ReadBack, Serial_drain. rewrite D, B. reflexivity. }
    assert (R2 : ReadBack_responses (snd r1) = ["FOO"; "BAR"]).
    { unfold ReadBack_responses, Serial_drain. rewrite D, B. reflexivity. }
    rewrite E2. repeat split; assumption || reflexivity.
  - split; [|apply ReadBack_flags].
    intros a b buf acc H. now apply ReadBack_scan_split.
Qed.

Lemma ReadBack_OK_FOO_BAR_witness :
  ReadBack_responses stale_session = ["OK"] /\
  ReadBack_responses (snd (ReadBack stale_session)) = ["FOO"; "BAR"] /\
  ok (snd (ReadBack (snd (ReadBack stale_session)))) = true /\
  response_body (snd (ReadBack (snd (ReadBack stale_session)))) = "BAR".
Proof.
  destruct (ReadBack_OK_FOO_BAR stale_session [] eq_refl eq_refl eq_refl)
    as [(R1 & _) [(R2 & _ & O2 & B2 & _) _]].
  repeat split; assumption.
Defined.

(** ** Framing: what the serial exchanges leave alone *)

Lemma send_serial_frame cmd s : frame s (snd (send_serial cmd s)).
Proof.
  unfold send_serial. set (s3 := set_ser _ _).
  destruct (send_serial_loop_spec 10 s3) as (k & _ & _ & Hf & _).
  eapply frame_trans; [|exact Hf]. subst s3. unfold frame; simpl; tauto.
Qed.

Lemma ReadBack_frame s : frame s (snd (ReadBack s)).
Proof.
  unfold ReadBack.
  destruct (Serial_drain (ser s)) as [chunk p].
  destruct (ReadBack_scan chunk (_buf s) []) as [rs buf].
  destruct (length rs =? 0)%nat; simpl.
  - unfold frame; simpl; tauto.
  - eapply frame_trans; [|apply ReadBack_classify_frame].
    unfold frame; simpl; tauto.
Qed.

Lemma send_serial_writes cmd s :
  writes (trace (ser (snd (send_serial cmd s)))) =
  writes (trace (ser s)) ++ [cmd +:+ CRLF].
Proof.
  assert (exists k : nat,
            trace (ser (snd (send_serial cmd s))) =
            trace (ser s) ++
            EvWrite (cmd +:+ CRLF) :: poll_events (chunks_upto k (ser s)))
    as [k Htr].
  { unfold send_serial. set (s3 := set_ser _ _).
    destruct (send_serial_loop_spec 10 s3) as (k & _ & Htr & _).
    exists k. rewrite Htr. subst s3. simpl. now rewrite <- app_assoc. }
  rewrite Htr. clear Htr.
  assert (W : forall a b, writes (a ++ b) = writes a ++ writes b).
  { induction a as [|[] a IH]; intros b; simpl; rewrite ?IH; reflexivity. }
  rewrite W. simpl. f_equal. f_equal.
  induction (chunks_upto k (ser s)) as [|c l IH]; simpl; [reflexivity|exact IH].
Qed.

Lemma TextFont_loop_frame this_font t lcd_w lcd_h text :
  forall x y i send_str s,
    frame s (snd (TextFont_loop this_font t lcd_w lcd_h text x y i send_str s)).
Proof.
  induction text as [|c rest IH]; intros x y i send_str s; simpl.
  - destruct (len send_str >? 0).
    + pose proof (send_serial_frame send_str s) as F.
      destruct (send_serial send_str s); exact F.
    + apply frame_refl.
  - destruct (this_font !! c) as [id|]; [|apply IH].
    destruct (index (img_list s) id) as [[addr [w h]]|e]; [|apply frame_refl].
    cbn [fst snd].
    destruct (x + w >=? lcd_w - w);
      (destruct (i + 1 >=? 16); [|apply IH]);
      match goal with
      | |- context [send_serial ?c s] =>
          pose proof (send_serial_frame c s) as F;
          destruct (send_serial c s) as [[|] s1]; cbn [fst snd] in *;
          [eapply frame_trans; [exact F|apply IH] | exact F]
      end.
Qed.

(** ** Allocator *)

Lemma ListImage_spec size s :
  ListImage size s =
  (Z.of_nat (length (img_list s)),
   set_img_offset (img_offset s + byte_len size)
     (set_img_list (img_list s ++ [(img_offset s, size)]) s)).
Proof.
  unfold ListImage. simpl. rewrite length_app. simpl. f_equal. lia.
Qed.

Lemma byte_len_nonneg size : valid_size size -> 0 <= byte_len size.
Proof. unfold valid_size, byte_len. nia. Qed.

Lemma byte_len_pos size : positive_size size -> 0 < byte_len size.
Proof. unfold positive_size, byte_len. nia. Qed.

Lemma ListImage_all_spec sizes : forall s,
  fst (ListImage_all sizes s) =
    map Z.of_nat (seq (length (img_list s)) (length sizes)) /\
  img_offset (snd (ListImage_all sizes s)) = img_offset s + sum_byte_len sizes /\
  img_list (snd (ListImage_all sizes s)) =
    img_list s ++ layout_from (img_offset s) sizes.
Proof.
  induction sizes as [|size rest IH]; intros s; cbn [ListImage_all].
  - simpl. rewrite app_nil_r. repeat split; lia.
  - rewrite ListImage_spec.
    specialize (IH (set_img_offset (img_offset s + byte_len size)
                      (set_img_list (img_list s ++ [(img_offset s, size)]) s))).
    destruct (ListImage_all rest _) as [ids s2]. simpl in *.
    destruct IH as (Hids & Hoff & Hl). rewrite Hids, Hoff, Hl.
    rewrite length_app, <- app_assoc. simpl.
    replace (length (img_list s) + 1)%nat with (S (length (img_list s))) by lia.
    repeat split; lia.
Qed.

Lemma layout_from_lower sizes : forall offset j b,
  Forall valid_size sizes ->
  layout_from offset sizes !! j = Some b -> offset <= fst b.
Proof.
  induction sizes as [|size rest IH]; intros offset j b Hv Hj; [discriminate|].
  inversion Hv as [|? ? Hs Hr]; subst.
  destruct j as [|j]; simpl in Hj.
  - inversion Hj; subst. simpl. lia.
  - pose proof (IH _ _ _ Hr Hj). pose proof (byte_len_nonneg _ Hs). lia.
Qed.

Lemma layout_from_no_overlap sizes : forall offset,
  Forall valid_size sizes -> no_overlap (layout_from offset sizes).
Proof.
  induction sizes as [|size rest IH]; intros offset Hv i j a b Hij Ha Hb;
    [discriminate|].
  inversion Hv as [|? ? Hs Hr]; subst.
  destruct j as [|j]; [lia|]. simpl in Hb.
  destruct i as [|i]; simpl in Ha.
  - inversion Ha; subst. simpl. eapply layout_from_lower; eassumption.
  - eapply (IH _ Hr i j); [lia|eassumption..].
Qed.

Lemma registry_grows_trans s1 s2 s3 :
  registry_grows s1 s2 -> registry_grows s2 s3 -> registry_grows s1 s3.
Proof.
  intros [H1 P1] [H2 P2]. split; [lia | etransitivity; eassumption].
Qed.

Lemma frame_registry s s' : frame s s' -> registry_grows s s'.
Proof. intros (_ & H1 & H2 & _). split; rewrite ?H1, ?H2; [lia|reflexivity]. Qed.

Lemma ListFont_loop_registry char_size char_list : forall this_font s,
  valid_size char_size ->
  registry_grows s (snd (ListFont_loop char_size char_list this_font s)).
Proof.
  induction char_list as [|c rest IH]; intros this_font s Hv;
    cbn [ListFont_loop].
  - split; [simpl; lia|reflexivity].
  - rewrite ListImage_spec.
    eapply registry_grows_trans; [|apply IH; exact Hv].
    split; simpl.
    + pose proof (byte_len_nonneg _ Hv). lia.
    + now apply prefix_app_r.
Qed.

Lemma registry_grows_refl s : registry_grows s s.
Proof. split; [lia|reflexivity]. Qed.

Lemma MoveTo_registry position s : registry_grows s (snd (MoveTo position s)).
Proof.
  unfold MoveTo. destruct (position_items position) as [[x y]|];
    split; simpl; lia || reflexivity.
Qed.

(** No operation moves the allocator cursor back or drops an entry of the
    image registry. *)
Lemma run_registry o s : valid_op o -> registry_grows s (run o s).
Proof.
  intros Hv.
  destruct o; cbn [run valid_op] in *;
    try (apply frame_registry;
         first [ apply send_serial_frame | apply ReadBack_frame ]).
  - (* Baudrate *)
    unfold Baudrate.
    pose proof (send_serial_frame ("BPS(" +:+ str baudrate +:+ ")") s) as F.
    destruct (send_serial _ s) as [res s1]. apply frame_registry in F. exact F.
  - (* On *)
    unfold On. apply frame_registry.
    match goal with
    | |- context [if ?b then _ else _] => destruct b
    end; apply send_serial_frame.
  - (* Orientation *)
    unfold Orientation.
    destruct (orientation =? 0); [|destruct (orientation =? 1)];
      try apply registry_grows_refl;
      (eapply registry_grows_trans;
       [|apply frame_registry, send_serial_frame]);
      split; simpl; lia || reflexivity.
  - (* Brightness *)
    unfold Brightness. destruct (Brightness_bl_val level);
      [apply frame_registry, send_serial_frame | apply registry_grows_refl].
  - (* MoveTo *)
    apply MoveTo_registry.
  - (* LineTo *)
    unfold LineTo. destruct (position_items position) as [p|];
      [|apply registry_grows_refl].
    unfold Line.
    pose proof (send_serial_frame (cmd4 "PL" (cursor s) p color) s) as F.
    destruct (send_serial _ s) as [[|] s1]; apply frame_registry in F;
      [|exact F].
    pose proof (MoveTo_registry position s1) as M.
    destruct (MoveTo position s1) as [r s2].
    eapply registry_grows_trans; eassumption.
  - (* ListImage *)
    rewrite ListImage_spec. split; simpl.
    + pose proof (byte_len_nonneg _ Hv). lia.
    + now apply prefix_app_r.
  - (* ListFont *)
    unfold ListFont.
    pose proof (ListFont_loop_registry char_size char_list ∅ s Hv) as L.
    destruct (ListFont_loop char_size char_list ∅ s) as [f s1]. exact L.
  - (* ShowImage *)
    unfold ShowImage.
    destruct (image_id >? _); [apply registry_grows_refl|].
    destruct (index (img_list s) image_id) as [info|e];
      [|apply registry_grows_refl].
    unfold RawImage.
    pose proof (send_serial_frame
                  (FSIMG (fst info) position (snd info) transparent) s) as F.
    destruct (send_serial _ s) as [res s1]. apply frame_registry in F. exact F.
  - (* TextFont *)
    unfold TextFont.
    destruct (font_id >? _); [apply registry_grows_refl|].
    destruct (index (font_list s) font_id) as [f|e];
      [|apply registry_grows_refl].
    destruct (lcd_dims s) as [lcd_w lcd_h].
    apply frame_registry, TextFont_loop_frame.
Qed.

(** The attributes of a freshly constructed session that the handshake with
    the device cannot change. *)
Lemma init_fresh port width height :
  cursor (init port width height) = (0, 0) /\
  img_list (init port width height) = [] /\
  img_offset (init port width height) = 2097152 /\
  font_list (init port width height) = [] /\
  current_orientation (init port width height) = VERTICAL /\
  standard_width (init port width height) = width /\
  standard_height (init port width height) = height.
Proof.
  unfold init, Reset, Background.
  set (s0 := set_ser _ _).
  pose proof (send_serial_frame "RESET" s0) as F.
  destruct (send_serial "RESET" s0) as [[|] s1]; cbn [fst snd] in *.
  - pose proof (send_serial_frame ("SBC(" +:+ str COLOR_BLACK +:+ ")") s1) as G.
    pose proof (frame_trans _ _ _ F G) as H. exact H.
  - exact F.
Qed.

(** C3. Each registration stores the image at the current cursor, reserves
    width*height*2 bytes and advances the cursor by exactly that.  After
    the registrations of any list of sizes on a fresh session the cursor is
    the base offset 2097152 plus the sum of the byte lengths and the
    registry holds each image at the running sum before it.  For sizes that
    are valid (no negative dimension) the assigned ranges do not overlap;
    for positive sizes every registration strictly increases the cursor;
    and no operation of the class moves the cursor back or removes a
    registry entry. *)
Theorem allocator_cursor (port : Serial) (width height : Z)
    (sizes : list (Z * Z)) :
  (forall size s,
     img_offset (snd (ListImage size s)) =
       img_offset s + fst size * snd size * 2 /\
     img_list (snd (ListImage size s)) =
       img_list s ++ [(img_offset s, size)]) /\
  img_offset (snd (ListImage_all sizes (init port width height))) =
    2097152 + sum_byte_len sizes /\
  img_list (snd (ListImage_all sizes (init port width height))) =
    layout_from 2097152 sizes /\
  (Forall valid_size sizes ->
   no_overlap (img_list (snd (ListImage_all sizes (init port width height))))) /\
  (forall size s,
     positive_size size -> img_offset s < img_offset (snd (ListImage size s))) /\
  (forall o s,
     valid_op o ->
     img_offset s <= img_offset (run o s) /\
     img_list s `prefix_of` img_list (run o s)).
Proof.
  destruct (init_fresh port width height) as (_ & Hl & Ho & _).
  destruct (ListImage_all_spec sizes (init port width height)) as (_ & Hoff & Hlist).
  rewrite Ho in Hoff, Hlist. rewrite Hl in Hlist. simpl in Hlist.
  split; [|split; [|split; [|split; [|split]]]].
  - intros size s. rewrite ListImage_spec. split; reflexivity.
  - exact Hoff.
  - exact Hlist.
  - intros Hv. rewrite Hlist. now apply layout_from_no_overlap.
  - intros size s Hp. rewrite ListImage_spec. simpl.
    pose proof (byte_len_pos _ Hp). lia.
  - intros o s Hv. exact (run_registry o s Hv).
Qed.

Lemma allocator_cursor_witness :
  img_offset (snd (ListImage_all [(16, 16); (8, 4); (0, 7)]
                     quiet_session)) = 2097152 + 576 /\
  no_overlap (img_list (snd (ListImage_all [(16, 16); (8, 4); (0, 7)]
                               quiet_session))) /\
  img_offset quiet_session <
    img_offset (snd (ListImage (16, 16) quiet_session)) /\
  img_offset quiet_session <=
    img_offset (run (OpListFont (16, 16) default_char_list)
                  quiet_session).
Proof.
  destruct (allocator_cursor silent_port 240 320 [(16, 16); (8, 4); (0, 7)])
    as (_ & Hoff & _ & Hno & Hpos & Hrun).
  split; [exact Hoff|]. split.
  - apply Hno. repeat constructor; simpl; lia.
  - split.
    + apply Hpos. split; simpl; lia.
    + apply (Hrun (OpListFont (16, 16) default_char_list)).
      split; simpl; lia.
Defined.

(** ** A fresh session and two 16x16 images *)

(** C4, as stated, fails: on a fresh session the two registrations of
    size (16,16) do return ids 0 and 1 and the first image is at 2097152,
    but the second is at 2097664, not at 2097168. *)
Lemma second_image_not_at_2097168 :
  ~ (fst (ListImage (16, 16) quiet_session) = 0 /\
     index (img_list (snd (ListImage (16, 16) quiet_session))) 0
       = Ret (2097152, (16, 16)) /\
     fst (ListImage (16, 16) (snd (ListImage (16, 16) quiet_session))) = 1 /\
     index (img_list (snd (ListImage (16, 16)
                             (snd (ListImage (16, 16) quiet_session))))) 1
       = Ret (2097168, (16, 16))).
Proof. vm_compute. intros (_ & _ & _ & H). discriminate. Qed.

(** C4, amended.  On a freshly constructed session, registering an image
    of size (16,16) returns id 0 and stores it at address 2097152;
    registering a second one returns id 1 and stores it at address
    2097152 + 16*16*2 = 2097664. *)
Theorem fresh_session_two_images (port : Serial) (width height : Z) :
  let r1 := ListImage (16, 16) (init port width height) in
  let r2 := ListImage (16, 16) (snd r1) in
  fst r1 = 0 /\ index (img_list (snd r1)) (fst r1) = Ret (2097152, (16, 16)) /\
  fst r2 = 1 /\ index (img_list (snd r2)) (fst r2) = Ret (2097664, (16, 16)) /\
  index (img_list (snd r2)) 0 = Ret (2097152, (16, 16)).
Proof.
  destruct (init_fresh port width height) as (_ & Hl & Ho & _).
  intros r1 r2. subst r2 r1. rewrite !ListImage_spec. simpl.
  rewrite Hl, Ho. simpl. repeat split; reflexivity.
Qed.

(** ** Text layout: the loop of [TextFont] seen on its glyphs *)

Lemma TextFont_loop_glyphs this_font t lcd_w lcd_h text :
  forall x y i send_str s gs,
    TextFont_glyphs this_font (img_list s) lcd_w lcd_h text x y = Some gs ->
    TextFont_loop this_font t lcd_w lcd_h text x y i send_str s =
    flush_glyphs t gs i send_str s.
Proof.
  induction text as [|c rest IH]; intros x y i send_str s gs H; simpl in H.
  - inversion H; subst. reflexivity.
  - cbn [TextFont_loop].
    destruct (this_font !! c) as [id|]; [|now apply IH].
    destruct (index (img_list s) id) as [[addr [w h]]|e]; [|discriminate].
    unfold advance in H. cbn [fst snd] in *.
    destruct (x + w >=? lcd_w - w);
      match type of H with
      | match TextFont_glyphs _ _ _ _ _ ?x' ?y' with _ => _ end = _ =>
          destruct (TextFont_glyphs this_font (img_list s) lcd_w lcd_h
                      rest x' y') as [gs'|] eqn:G; [|discriminate];
          inversion H; subst; clear H;
          cbn [flush_glyphs]; unfold glyph_cmd; cbn [fst snd];
          (destruct (i + 1 >=? 16); [|now apply IH]);
          match goal with
          | |- context [send_serial ?cmd s] =>
              pose proof (send_serial_frame cmd s) as F;
              destruct (send_serial cmd s) as [[|] s1]; [|reflexivity];
              apply IH; destruct F as (_ & F & _); cbn [snd] in F;
              rewrite F; exact G
          end
      end.
Qed.

Lemma batch_cons t g gs : batch t (g :: gs) = glyph_cmd t g +:+ batch t gs.
Proof. reflexivity. Qed.

Lemma len_append a b : len (a +:+ b) = len a + len b.
Proof.
  unfold len. induction a as [|c a IH]; [reflexivity|].
  rewrite append_cons. cbn [String.length]. lia.
Qed.

Lemma glyph_cmd_len t g : 0 < len (glyph_cmd t g).
Proof.
  unfold glyph_cmd, FSIMG. rewrite len_append.
  change ("FSIMG(" +:+ ?r) with (String "F" ("SIMG(" +:+ r)).
  unfold len at 1. cbn [String.length]. unfold len. lia.
Qed.

Lemma batch_len t gs : gs <> [] -> 0 < len (batch t gs).
Proof.
  destruct gs as [|g gs]; [congruence|]. intros _.
  rewrite batch_cons, len_append. pose proof (glyph_cmd_len t g).
  unfold len in *. lia.
Qed.

(** Fewer than 16 glyphs in all: nothing is sent inside the loop. *)
Lemma flush_small t gs : forall i send_str s,
  i + Z.of_nat (length gs) < 16 ->
  flush_glyphs t gs i send_str s =
  flush_glyphs t [] i (send_str +:+ batch t gs) s.
Proof.
  induction gs as [|g gs IH]; intros i send_str s H.
  - unfold batch. simpl. now rewrite append_empty_r.
  - cbn [flush_glyphs]. cbn [length] in H.
    destruct (i + 1 >=? 16) eqn:E; [lia|].
    rewrite IH by lia. rewrite batch_cons, append_assoc. reflexivity.
Qed.

(** The counter reaches 16: the buffer and the glyphs up to there go out as
    one transmission, and the loop restarts empty on the rest. *)
Lemma flush_full t gs : forall i send_str s,
  0 <= i < 16 ->
  (Z.to_nat (16 - i) <= length gs)%nat ->
  flush_glyphs t gs i send_str s =
  let '(res, s1) :=
    send_serial (send_str +:+ batch t (take (Z.to_nat (16 - i)) gs)) s in
  if res then flush_glyphs t (drop (Z.to_nat (16 - i)) gs) 0 EmptyString s1
  else (Ret false, s1).
Proof.
  induction gs as [|g gs IH]; intros i send_str s Hi Hn.
  - simpl in Hn. lia.
  - cbn [flush_glyphs]. destruct (i + 1 >=? 16) eqn:E.
    + assert (i = 15) as -> by lia. change (Z.to_nat (16 - 15)) with 1%nat.
      change (take 1 (g :: gs)) with [g]. change (drop 1 (g :: gs)) with gs.
      rewrite batch_cons. unfold batch at 1. cbn [map concat_str fold_right].
      rewrite append_empty_r. reflexivity.
    + replace (Z.to_nat (16 - i)) with (S (Z.to_nat (16 - (i + 1)))) by lia.
      cbn [take drop firstn skipn]. rewrite batch_cons, <- append_assoc.
      apply IH; [lia|]. cbn [length] in Hn. lia.
Qed.

Lemma groups_of_16_nil fuel : groups_of_16 fuel [] = [].
Proof. now destruct fuel. Qed.

(** From a batch boundary the loop sends exactly the groups of 16. *)
Lemma flush_batches t fuel : forall gs s,
  (length gs <= fuel)%nat ->
  flush_glyphs t gs 0 EmptyString s = send_batches t (groups_of_16 fuel gs) s.
Proof.
  induction fuel as [|fuel IH]; intros gs s H.
  - destruct gs; [reflexivity | simpl in H; lia].
  - destruct gs as [|g gs]; [reflexivity|].
    cbn [groups_of_16 send_batches].
    destruct (Nat.lt_ge_cases (length (g :: gs)) 16) as [L|L].
    + rewrite flush_small by lia.
      rewrite take_ge, drop_ge by lia. rewrite groups_of_16_nil.
      rewrite append_empty_l. cbn [flush_glyphs send_batches].
      assert (B : 0 < len (batch t (g :: gs))) by now apply batch_len.
      destruct (len (batch t (g :: gs)) >? 0) eqn:E; [|lia].
      destruct (send_serial (batch t (g :: gs)) s) as [[|] s1]; reflexivity.
    + change 16%nat with (Z.to_nat (16 - 0)) in L |- *.
      rewrite flush_full by lia. rewrite append_empty_l.
      destruct (send_serial _ s) as [[|] s1]; [|reflexivity].
      apply IH. rewrite length_drop. lia.
Qed.

Lemma index_Ret_upper {A} (l : list A) i a :
  index l i = Ret a -> i <= Z.of_nat (length l) - 1.
Proof.
  unfold index. destruct (i <? 0) eqn:E.
  - intros _. lia.
  - destruct ((0 <=? i) && (i <? Z.of_nat (length l))) eqn:B; [|discriminate].
    intros _. apply andb_true_iff in B as [_ B]. lia.
Qed.

(** [TextFont] on a registered font sends the groups of 16 glyph commands,
    one transmission each. *)
Lemma TextFont_send_batches s font_id this_font position text t gs :
  index (font_list s) font_id = Ret this_font ->
  TextFont_glyphs this_font (img_list s) (fst (lcd_dims s)) (snd (lcd_dims s))
    text (fst position) (snd position) = Some gs ->
  TextFont font_id position text t s = send_batches t (batches gs) s.
Proof.
  intros Hf Hg. unfold TextFont.
  pose proof (index_Ret_upper _ _ _ Hf) as U.
  destruct (font_id >? _) eqn:E; [lia|]. rewrite Hf.
  destruct (lcd_dims s) as [lcd_w lcd_h]. cbn [fst snd] in Hg.
  rewrite (TextFont_loop_glyphs _ _ _ _ _ _ _ _ _ _ _ Hg).
  now apply flush_batches.
Qed.

Lemma batches_small gs :
  (1 <= length gs < 16)%nat -> batches gs = [gs].
Proof.
  intros H. unfold batches. destruct gs as [|g gs]; [simpl in H; lia|].
  cbn [length groups_of_16]. rewrite take_ge, drop_ge by lia.
  now rewrite groups_of_16_nil.
Qed.

Lemma batches_20 gs :
  length gs = 20%nat -> batches gs = [take 16 gs; drop 16 gs].
Proof.
  intros H. unfold batches. rewrite H.
  do 20 (destruct gs as [|? gs]; [discriminate|]).
  destruct gs; [reflexivity|discriminate].
Qed.

Lemma ListFont_loop_font_list char_size char_list : forall this_font s,
  font_list (snd (ListFont_loop char_size char_list this_font s)) = font_list s.
Proof.
  induction char_list as [|c rest IH]; intros this_font s;
    cbn [ListFont_loop]; [reflexivity|].
  rewrite ListImage_spec, IH. reflexivity.
Qed.

Lemma ListFont_font_list char_size char_list s :
  font_list (snd (ListFont char_size char_list s)) =
  font_list s ++ [fst (ListFont_loop char_size char_list ∅ s)].
Proof.
  unfold ListFont.
  pose proof (ListFont_loop_font_list char_size char_list ∅ s) as H.
  destruct (ListFont_loop char_size char_list ∅ s) as [f s1].
  cbn [fst snd] in *. now rewrite H.
Qed.

(** After [ListFont] on a session without fonts, font 0 exists. *)
Lemma ListFont_first_font char_size char_list s :
  font_list s = [] ->
  index (font_list (snd (ListFont char_size char_list s))) 0 =
  Ret (match index (font_list (snd (ListFont char_size char_list s))) 0 with
       | Ret f => f
       | Raise _ => ∅
       end).
Proof.
  intros H. rewrite ListFont_font_list, H. reflexivity.
Qed.

(** The font of the narrow session is its font 0, whatever the device
    answered during construction. *)
Lemma narrow_font_index port :
  index (font_list (narrow_session port)) 0 = Ret (narrow_font port).
Proof.
  exact (ListFont_first_font (16, 16) default_char_list (init port 32 320)
           (proj1 (proj2 (proj2 (proj2 (init_fresh port 32 320)))))).
Qed.

(** C5, as stated, fails: a text none of whose characters is in the font
    produces no glyph command (fewer than 16) and causes no transmission at
    all, not one. *)
Lemma TextFont_no_glyph_no_transmission :
  TextFont 0 (0, 0) "xyz" 0 AB_session = (Ret true, AB_session) /\
  ~ (exists data,
       writes (trace (ser (snd (TextFont 0 (0, 0) "xyz" 0 AB_session)))) =
       writes (trace (ser AB_session)) ++ [data]).
Proof.
  assert (E : TextFont 0 (0, 0) "xyz" 0 AB_session = (Ret true, AB_session))
    by (vm_compute; reflexivity).
  split; [exact E|]. rewrite E. cbn [snd]. intros [data H].
  apply (f_equal (@length string)) in H. rewrite length_app in H.
  cbn [length] in H. lia.
Qed.

(** C5, amended.  [TextFont] on a registered font sends the glyph commands,
    each followed by a semicolon, in groups of 16 with the remaining partial
    group after the loop, one transmission per group, and stops with failure
    at the first transmission that times out, earlier transmissions staying
    sent.  A text producing no glyph causes no transmission and succeeds; a
    text producing 1 to 15 glyphs causes exactly one transmission, whose
    outcome is the result; a text producing exactly 20 glyphs causes a
    transmission of 16 glyphs and, if that one is answered, a second one of
    4 glyphs; if the first times out the result is failure after that single
    transmission. *)
Theorem TextFont_batching (s : SunLCD) (font_id : Z) (this_font : font)
    (position : Z * Z) (text : string) (t : Z) (gs : list glyph) :
  index (font_list s) font_id = Ret this_font ->
  TextFont_glyphs this_font (img_list s) (fst (lcd_dims s)) (snd (lcd_dims s))
    text (fst position) (snd position) = Some gs ->
  let r := TextFont font_id position text t s in
  let W := writes (trace (ser s)) in
  r = send_batches t (batches gs) s /\
  (length gs = 0%nat -> r = (Ret true, s)) /\
  ((1 <= length gs < 16)%nat ->
   writes (trace (ser (snd r))) = W ++ [batch t gs +:+ CRLF] /\
   fst r = Ret (fst (send_serial (batch t gs) s))) /\
  (length gs = 20%nat ->
   let r1 := send_serial (batch t (take 16 gs)) s in
   length (take 16 gs) = 16%nat /\ length (drop 16 gs) = 4%nat /\
   if fst r1 then
     writes (trace (ser (snd r))) =
       W ++ [batch t (take 16 gs) +:+ CRLF; batch t (drop 16 gs) +:+ CRLF] /\
     fst r = Ret (fst (send_serial (batch t (drop 16 gs)) (snd r1)))
   else
     r = (Ret false, snd r1) /\
     writes (trace (ser (snd r))) = W ++ [batch t (take 16 gs) +:+ CRLF]).
Proof.
  intros Hf Hg r W.
  assert (E : r = send_batches t (batches gs) s)
    by (eapply TextFont_send_batches; eassumption).
  split; [exact E|]. split; [|split].
  - intros H0. rewrite E. destruct gs; [reflexivity|discriminate].
  - intros H. rewrite E, (batches_small _ H). cbn [send_batches].
    pose proof (send_serial_writes (batch t gs) s) as Hw.
    destruct (send_serial (batch t gs) s) as [[|] s1]; cbn [fst snd] in *;
      split; solve [exact Hw | reflexivity].
  - intros H r1. rewrite length_take, length_drop, H.
    split; [reflexivity|]. split; [reflexivity|].
    rewrite E, (batches_20 _ H). cbn [send_batches].
    pose proof (send_serial_writes (batch t (take 16 gs)) s) as Hw1.
    subst r1. destruct (send_serial (batch t (take 16 gs)) s) as [[|] s1];
      cbn [fst snd] in *.
    + pose proof (send_serial_writes (batch t (drop 16 gs)) s1) as Hw2.
      destruct (send_serial (batch t (drop 16 gs)) s1) as [[|] s2];
        cbn [fst snd] in *; rewrite Hw2, Hw1, <- app_assoc;
        split; reflexivity.
    + split; [reflexivity|exact Hw1].
Qed.

Lemma TextFont_batching_witness :
  writes (trace (ser (snd (TextFont 0 (0, 0) "HelloWorld" 0
                             (narrow_session (ok_port 4)))))) =
    writes (trace (ser (narrow_session (ok_port 4)))) ++
    [batch 0 (narrow_glyphs (ok_port 4) "HelloWorld") +:+ CRLF] /\
  length (writes (trace (ser (snd (TextFont 0 (0, 0) "HelloWorldHelloWorld" 0
                                     (narrow_session (ok_port 4))))))) =
    (length (writes (trace (ser (narrow_session (ok_port 4))))) + 2)%nat.
Proof.
  split.
  - refine (proj1 (proj1 (proj2 (proj2
      (TextFont_batching (narrow_session (ok_port 4)) 0
         (narrow_font (ok_port 4)) (0, 0) "HelloWorld" 0
         (narrow_glyphs (ok_port 4) "HelloWorld") _ _))) _)).
    + apply narrow_font_index.
    + vm_compute; reflexivity.
    + vm_compute. split; lia.
  - pose proof (proj2 (proj2 (proj2
      (TextFont_batching (narrow_session (ok_port 4)) 0
         (narrow_font (ok_port 4)) (0, 0) "HelloWorldHelloWorld" 0
         (narrow_glyphs (ok_port 4) "HelloWorldHelloWorld")
         (narrow_font_index (ok_port 4)) ltac:(vm_compute; reflexivity))))
      ltac:(vm_compute; reflexivity)) as (_ & _ & H).
    assert (R : fst (send_serial
                       (batch 0 (take 16 (narrow_glyphs (ok_port 4)
                                            "HelloWorldHelloWorld")))
                       (narrow_session (ok_port 4))) = true)
      by (vm_compute; reflexivity).
    rewrite R in H. destruct H as [H _]. rewrite H, length_app. reflexivity.
Defined.

(** ** Text layout: line wrap *)

Lemma index_nonneg {A} (l : list A) i a :
  0 <= i -> l !! Z.to_nat i = Some a -> index l i = Ret a.
Proof.
  intros Hi Hl. unfold index.
  pose proof (lookup_lt_Some _ _ _ Hl) as Hlt.
  destruct (i <? 0) eqn:E; [lia|].
  destruct ((0 <=? i) && (i <? Z.of_nat (length l))) eqn:B.
  - now rewrite Hl.
  - apply andb_false_iff in B as [B|B]; lia.
Qed.

Lemma font_ok_index imgs char_size this_font c id :
  font_ok imgs char_size this_font -> this_font !! c = Some id ->
  exists addr, index imgs id = Ret (addr, char_size).
Proof.
  intros Hok Hc. destruct (Hok c id Hc) as [Hid [addr Ha]].
  exists addr. now apply index_nonneg.
Qed.

(** The fonts [ListFont] builds only refer to images it registered. *)
Lemma ListFont_loop_ok char_size char_list : forall this_font s,
  font_ok (img_list s) char_size this_font ->
  font_ok (img_list (snd (ListFont_loop char_size char_list this_font s)))
    char_size (fst (ListFont_loop char_size char_list this_font s)).
Proof.
  induction char_list as [|c rest IH]; intros this_font s Hok;
    cbn [ListFont_loop]; [exact Hok|].
  rewrite ListImage_spec. apply IH. cbn [img_list set_img_offset set_img_list].
  intros c' id Hc'. destruct (decide (c = c')) as [->|Hne].
  - rewrite lookup_insert_eq in Hc'. inversion Hc'; subst. split; [lia|].
    exists (img_offset s). rewrite Nat2Z.id.
    rewrite lookup_app_r by lia. now rewrite Nat.sub_diag.
  - rewrite lookup_insert_ne in Hc' by exact Hne.
    destruct (Hok c' id Hc') as [Hid [addr Ha]]. split; [exact Hid|].
    exists addr. rewrite lookup_app_l; [exact Ha|].
    eapply lookup_lt_Some; exact Ha.
Qed.

Lemma ListFont_first_font_ok char_size char_list s :
  font_list s = [] ->
  font_ok (img_list (snd (ListFont char_size char_list s))) char_size
    (match index (font_list (snd (ListFont char_size char_list s))) 0 with
     | Ret f => f
     | Raise _ => ∅
     end).
Proof.
  intros Hf. rewrite ListFont_font_list, Hf.
  change (index ([] ++ [?f]) 0) with (Ret f).
  pose proof (ListFont_loop_ok char_size char_list ∅ s) as H.
  unfold ListFont.
  destruct (ListFont_loop char_size char_list ∅ s) as [f s1].
  cbn [fst snd img_list set_font_list] in *.
  apply H. intros c id Hc. rewrite lookup_empty in Hc. discriminate.
Qed.

Lemma narrow_font_ok port :
  font_ok (img_list (narrow_session port)) (16, 16) (narrow_font port).
Proof.
  exact (ListFont_first_font_ok (16, 16) default_char_list (init port 32 320)
           (proj1 (proj2 (proj2 (proj2 (init_fresh port 32 320)))))).
Qed.

(** On a logical width of 32 a font of 16x16 glyphs wraps after every
    glyph: from column 0 the advance gives x = 16 >= 32 - 16. *)
Lemma glyphs_width_32 this_font imgs lcd_h text :
  font_ok imgs (16, 16) this_font ->
  forall y0, exists gs,
    TextFont_glyphs this_font imgs 32 lcd_h text 0 y0 = Some gs /\
    (all_in_font this_font text = true -> length gs = String.length text) /\
    Forall (fun g => fst (glyph_pos g) = 0) gs /\
    (forall g, gs !! 0%nat = Some g -> glyph_pos g = (0, y0)) /\
    (forall k g1 g2, gs !! k = Some g1 -> gs !! S k = Some g2 ->
       snd (glyph_pos g2) =
       if snd (glyph_pos g1) + 16 >=? lcd_h - 16 then 0
       else snd (glyph_pos g1) + 16) /\
    (forall k g, gs !! k = Some g -> y0 + 16 * Z.of_nat k < lcd_h - 16 ->
       glyph_pos g = (0, y0 + 16 * Z.of_nat k)).
Proof.
  intros Hok. induction text as [|c rest IH]; intros y0.
  - exists []. split; [reflexivity|]. split; [reflexivity|].
    split; [constructor|]. repeat split; intros; discriminate.
  - cbn [TextFont_glyphs]. unfold all_in_font. cbn [list_ascii_of_string forallb].
    destruct (this_font !! c) as [id|] eqn:Hc.
    + destruct (font_ok_index _ _ _ _ _ Hok Hc) as [addr ->].
      cbn [fst snd]. unfold advance. cbn [fst snd].
      change (0 + 16 >=? 32 - 16) with true. cbv iota beta.
      set (y' := if y0 + 16 >=? lcd_h - 16 then 0 else y0 + 16).
      destruct (IH y') as (gs & -> & Hlen & Hall & Hhd & Hadj & Hpos).
      exists ((addr, (0, y0), (16, 16)) :: gs).
      split; [reflexivity|]. split.
      { intros H. cbn [length String.length]. f_equal. apply Hlen. exact H. }
      split. { constructor; [reflexivity|exact Hall]. }
      split. { intros g Hg. inversion Hg; subst. reflexivity. }
      split.
      { intros [|k] g1 g2 H1 H2.
        - inversion H1; subst. cbn in H2. rewrite (Hhd _ H2). reflexivity.
        - cbn in H1, H2. eapply Hadj; eassumption. }
      intros [|k] g Hg Hk.
      * inversion Hg; subst. unfold glyph_pos. cbn [fst snd]. f_equal. lia.
      * cbn in Hg.
        assert (Hy : y' = y0 + 16).
        { subst y'. destruct (y0 + 16 >=? lcd_h - 16) eqn:E; [lia|reflexivity]. }
        rewrite (Hpos k g Hg) by lia. f_equal. lia.
    + destruct (IH y0) as (gs & -> & Hlen & Hall & Hhd & Hadj & Hpos).
      exists gs. split; [reflexivity|]. split; [discriminate|].
      repeat split; assumption.
Qed.

(** C6, as stated, fails: drawing the 10 characters of HelloWorld from
    (0,0) on the 32-pixel-wide session puts one glyph on the first line,
    not two; the second glyph is already on the next line. *)
Lemma two_glyphs_per_line_fails :
  TextFont_glyphs (narrow_font silent_port)
    (img_list (narrow_session silent_port)) 32 320 "HelloWorld" 0 0 =
    Some (narrow_glyphs silent_port "HelloWorld") /\
  map glyph_pos (narrow_glyphs silent_port "HelloWorld") =
    [(0, 0); (0, 16); (0, 32); (0, 48); (0, 64);
     (0, 80); (0, 96); (0, 112); (0, 128); (0, 144)] /\
  glyphs_on_line 0 (narrow_glyphs silent_port "HelloWorld") = 1%nat /\
  glyphs_on_line 0 (narrow_glyphs silent_port "HelloWorld") <> 2%nat.
Proof.
  split; [vm_compute; reflexivity|].
  split; [vm_compute; reflexivity|].
  assert (E : glyphs_on_line 0 (narrow_glyphs silent_port "HelloWorld") = 1%nat)
    by (vm_compute; reflexivity).
  split; [exact E|]. rewrite E. discriminate.
Qed.

(** C6, amended.  Drawing a 10-character string, all of whose characters
    are in a font of 16x16 glyphs, from origin (0,0) on a display whose
    logical width is 32 places exactly one glyph on each line: the wrap
    rule x >= logical_width - glyph_width holds after every glyph (16 >=
    16), so every glyph is drawn at x = 0 and the next one a glyph height
    lower (or at y = 0 after a screen wrap); while 16*k stays below the
    logical height minus 16, glyph k is at (0, 16*k). *)
Theorem TextFont_wrap_width_32 (s : SunLCD) (font_id : Z) (this_font : font)
    (text : string) (t : Z) :
  fst (lcd_dims s) = 32 ->
  index (font_list s) font_id = Ret this_font ->
  font_ok (img_list s) (16, 16) this_font ->
  String.length text = 10%nat ->
  all_in_font this_font text = true ->
  exists gs,
    TextFont_glyphs this_font (img_list s) 32 (snd (lcd_dims s)) text 0 0 =
      Some gs /\
    TextFont font_id (0, 0) text t s = send_batches t (batches gs) s /\
    length gs = 10%nat /\
    Forall (fun g => fst (glyph_pos g) = 0) gs /\
    (forall k g1 g2, gs !! k = Some g1 -> gs !! S k = Some g2 ->
       snd (glyph_pos g2) =
       if snd (glyph_pos g1) + 16 >=? snd (lcd_dims s) - 16 then 0
       else snd (glyph_pos g1) + 16) /\
    (forall k g, gs !! k = Some g ->
       16 * Z.of_nat k < snd (lcd_dims s) - 16 ->
       glyph_pos g = (0, 16 * Z.of_nat k)).
Proof.
  intros Hw Hf Hok Hlen Hin.
  destruct (glyphs_width_32 this_font (img_list s) (snd (lcd_dims s)) text
              Hok 0) as (gs & Hg & Hl & Hall & _ & Hadj & Hpos).
  exists gs. split; [exact Hg|]. split.
  { eapply TextFont_send_batches; [exact Hf|]. rewrite Hw. exact Hg. }
  split; [rewrite (Hl Hin); exact Hlen|].
  split; [exact Hall|]. split; [exact Hadj|].
  intros k g Hk Hlt. rewrite (Hpos k g Hk) by lia. reflexivity.
Qed.

Lemma TextFont_wrap_width_32_witness :
  exists gs,
    TextFont_glyphs (narrow_font silent_port)
      (img_list (narrow_session silent_port)) 32
      (snd (lcd_dims (narrow_session silent_port))) "HelloWorld" 0 0 = Some gs /\
    length gs = 10%nat /\
    Forall (fun g => fst (glyph_pos g) = 0) gs.
Proof.
  destruct (TextFont_wrap_width_32 (narrow_session silent_port) 0
              (narrow_font silent_port) "HelloWorld" 0
              ltac:(vm_compute; reflexivity)
              (narrow_font_index silent_port)
              (narrow_font_ok silent_port)
              eq_refl
              ltac:(vm_compute; reflexivity))
    as (gs & Hg & _ & Hl & Hall & _).
  exists gs. repeat split; assumption.
Defined.

(** ** The drawing cursor *)

Lemma MoveTo_valid position x y s :
  position_items position = Some (x, y) ->
  MoveTo position s = (true, set_cursor (x, y) s).
Proof. intros H. unfold MoveTo. rewrite H. reflexivity. Qed.

Lemma send_serial_cursor cmd s : cursor (snd (send_serial cmd s)) = cursor s.
Proof. now destruct (send_serial_frame cmd s) as (H & _). Qed.

(** C9, as stated, fails: when the device does not answer the line
    command, [LineTo] after [MoveTo((5,5))] reports failure and leaves the
    cursor at (5,5) instead of moving it to (8,5). *)
Lemma LineTo_timeout_keeps_cursor :
  fst (LineTo (PyTuple [8; 5]) 15
         (snd (MoveTo (PyTuple [5; 5]) quiet_session))) = Some false /\
  cursor (snd (LineTo (PyTuple [8; 5]) 15
                 (snd (MoveTo (PyTuple [5; 5]) quiet_session)))) = (5, 5) /\
  cursor (snd (LineTo (PyTuple [8; 5]) 15
                 (snd (MoveTo (PyTuple [5; 5]) quiet_session)))) <> (8, 5).
Proof. vm_compute. repeat split; discriminate. Qed.

(** C9, amended.  [MoveTo] is idempotent: for every valid 2-element
    position p, calling it twice leaves the same session as calling it
    once, with the cursor at p.  After [MoveTo((5,5))], [LineTo((8,5))]
    sends the line from (5,5) to (8,5); if that command receives a response
    the cursor becomes (8,5) and a subsequent [LineTo] draws from (8,5); if
    it times out [LineTo] returns false and the cursor stays at (5,5). *)
Theorem MoveTo_LineTo_cursor (position : position_arg) (x y : Z)
    (s : SunLCD) (color : Z) (next : Z * Z) :
  position_items position = Some (x, y) ->
  let once := snd (MoveTo position s) in
  let twice := snd (MoveTo position once) in
  (fst (MoveTo position s) = true /\ cursor once = (x, y) /\
   cursor twice = (x, y) /\ twice = once) /\
  let s1 := snd (MoveTo (PyTuple [5; 5]) s) in
  let r := LineTo (PyTuple [8; 5]) color s1 in
  writes (trace (ser (snd r))) =
    writes (trace (ser s1)) ++ [cmd4 "PL" (5, 5) (8, 5) color +:+ CRLF] /\
  (fst (Line (5, 5) (8, 5) color s1) = true ->
   fst r = Some true /\ cursor (snd r) = (8, 5) /\
   writes (trace (ser (snd (LineTo (PyTuple [fst next; snd next]) color (snd r))))) =
     writes (trace (ser (snd r))) ++ [cmd4 "PL" (8, 5) next color +:+ CRLF]) /\
  (fst (Line (5, 5) (8, 5) color s1) = false ->
   fst r = Some false /\ cursor (snd r) = (5, 5)).
Proof.
  intros Hp once twice.
  split.
  { subst twice once. rewrite (MoveTo_valid _ _ _ s Hp). cbn [fst snd].
    rewrite (MoveTo_valid _ _ _ _ Hp). cbn [fst snd].
    repeat split; reflexivity. }
  intros s1 r.
  assert (Hc1 : cursor s1 = (5, 5)) by reflexivity.
  subst r. unfold LineTo. cbn [position_items]. rewrite Hc1.
  unfold Line.
  pose proof (send_serial_writes (cmd4 "PL" (5, 5) (8, 5) color) s1) as Hw.
  pose proof (send_serial_cursor (cmd4 "PL" (5, 5) (8, 5) color) s1) as Hc.
  destruct (send_serial (cmd4 "PL" (5, 5) (8, 5) color) s1) as [[|] s2];
    cbn [fst snd] in *.
  - split; [exact Hw|]. split; [|discriminate]. intros _.
    split; [reflexivity|]. split; [reflexivity|].
    unfold LineTo, Line. cbn [position_items MoveTo fst snd cursor set_cursor].
    pose proof (send_serial_writes (cmd4 "PL" (8, 5) next color)
                  (set_cursor (8, 5) (set_cursor (8, snd (cursor s2)) s2)))
      as Hw2.
    replace (fst next, snd next) with next by now destruct next.
    destruct (send_serial (cmd4 "PL" (8, 5) next color) _) as [[|] s3];
      cbn [fst snd] in *; exact Hw2.
  - split; [exact Hw|]. split; [discriminate|]. intros _.
    split; [reflexivity|]. rewrite Hc. exact Hc1.
Qed.

Lemma MoveTo_LineTo_cursor_witness :
  cursor (snd (MoveTo (PyTuple [5; 5])
                 (snd (MoveTo (PyTuple [5; 5]) answered_session))))
  = (5, 5) /\
  cursor (snd (LineTo (PyTuple [8; 5]) 15
                 (snd (MoveTo (PyTuple [5; 5]) answered_session))))
  = (8, 5).
Proof.
  destruct (MoveTo_LineTo_cursor (PyTuple [5; 5]) 5 5
              answered_session 15 (9, 9) eq_refl)
    as [(_ & _ & H2 & _) (_ & Hok & _)].
  split; [exact H2|].
  apply Hok. vm_compute. reflexivity.
Defined.

(** ** Validation of image and font ids *)

Lemma index_negative {A} (l : list A) (i : Z) :
  - Z.of_nat (length l) <= i < 0 ->
  exists a, l !! Z.to_nat (Z.of_nat (length l) + i) = Some a /\
            index l i = Ret a /\
            index l (Z.of_nat (length l) + i) = Ret a.
Proof.
  intros H.
  destruct (lookup_lt_is_Some_2 l (Z.to_nat (Z.of_nat (length l) + i)))
    as [a Ha]; [lia|].
  exists a. split; [exact Ha|]. split.
  - unfold index. destruct (i <? 0) eqn:E; [|lia].
    destruct ((0 <=? _) && (_ <? _)) eqn:B.
    + now rewrite Ha.
    + apply andb_false_iff in B as [B|B]; lia.
  - apply index_nonneg; [lia|exact Ha].
Qed.

(** C10. The id checks of [ShowImage] and [TextFont] reject only ids
    strictly greater than the registry length minus one.  A negative id
    whose absolute value does not exceed the registry length passes the
    check and selects the entry counted from the end of the registry, so
    the call behaves as with the id [length + id]; id -1 is the most
    recently registered image or font.  (An id below minus the length
    raises IndexError instead of reporting failure.) *)
Theorem negative_id_counts_from_end (s : SunLCD) (position : Z * Z)
    (text : string) (transparent : Z) :
  (forall id, id > Z.of_nat (length (img_list s)) - 1 ->
     ShowImage id position transparent s = (Ret false, s)) /\
  (forall id, id > Z.of_nat (length (font_list s)) - 1 ->
     TextFont id position text transparent s = (Ret false, s)) /\
  (forall id, - Z.of_nat (length (img_list s)) <= id < 0 ->
     exists img_info,
       img_list s !! Z.to_nat (Z.of_nat (length (img_list s)) + id)
         = Some img_info /\
       (id = -1 -> last (img_list s) = Some img_info) /\
       ShowImage id position transparent s =
         (let '(res, s1) :=
            RawImage (fst img_info) position (snd img_info) transparent s in
          (Ret res, s1)) /\
       ShowImage id position transparent s =
         ShowImage (Z.of_nat (length (img_list s)) + id) position transparent s) /\
  (forall id, - Z.of_nat (length (font_list s)) <= id < 0 ->
     exists this_font,
       font_list s !! Z.to_nat (Z.of_nat (length (font_list s)) + id)
         = Some this_font /\
       (id = -1 -> last (font_list s) = Some this_font) /\
       TextFont id position text transparent s =
         TextFont_loop this_font transparent (fst (lcd_dims s))
           (snd (lcd_dims s)) text (fst position) (snd position) 0
           EmptyString s /\
       TextFont id position text transparent s =
         TextFont (Z.of_nat (length (font_list s)) + id) position text
           transparent s) /\
  (forall id, id < - Z.of_nat (length (img_list s)) ->
     ShowImage id position transparent s = (Raise IndexError, s)).
Proof.
  split; [|split; [|split; [|split]]].
  - intros id H. unfold ShowImage.
    destruct (id >? _) eqn:E; [reflexivity|lia].
  - intros id H. unfold TextFont.
    destruct (id >? _) eqn:E; [reflexivity|lia].
  - intros id H. destruct (index_negative (img_list s) id H) as (a & Ha & Hi & Hj).
    exists a. split; [exact Ha|]. split.
    { intros ->. rewrite last_lookup. rewrite <- Ha. f_equal. lia. }
    unfold ShowImage. rewrite Hi, Hj.
    destruct (id >? _) eqn:E1; [lia|].
    destruct (_ + id >? _) eqn:E2; [lia|].
    split; reflexivity.
  - intros id H. destruct (index_negative (font_list s) id H) as (f & Ha & Hi & Hj).
    exists f. split; [exact Ha|]. split.
    { intros ->. rewrite last_lookup. rewrite <- Ha. f_equal. lia. }
    unfold TextFont. rewrite Hi, Hj.
    destruct (id >? _) eqn:E1; [lia|].
    destruct (_ + id >? _) eqn:E2; [lia|].
    destruct (lcd_dims s) as [lcd_w lcd_h]. split; reflexivity.
  - intros id H. unfold ShowImage.
    destruct (id >? _) eqn:E1; [lia|].
    unfold index. destruct (id <? 0) eqn:E2; [|lia].
    destruct ((0 <=? _) && (_ <? _)) eqn:B; [|reflexivity].
    apply andb_true_iff in B as [B _]. lia.
Qed.

(** ** Brightness *)

Lemma Brightness_clamp level v s :
  Brightness_bl_val level = Ret v ->
  Brightness level s = send_serial ("BL(" +:+ str (clamp_byte v) +:+ ")") s.
Proof.
  intros H. unfold Brightness. rewrite H. cbv zeta.
  replace (if (if v <? 0 then 0 else v) >? 255 then 255
           else if v <? 0 then 0 else v) with (clamp_byte v); [reflexivity|].
  unfold clamp_byte. destruct (v <? 0) eqn:E1.
  - destruct (0 >? 255) eqn:E2; lia.
  - destruct (v >? 255) eqn:E2; lia.
Qed.

Lemma Brightness_raise level e s :
  Brightness_bl_val level = Raise e -> Brightness level s = (false, s).
Proof. intros H. unfold Brightness. now rewrite H. Qed.

(** C7, as stated, fails: for the level 0.75 the exact product
    (1 - 0.75) * 255 is 63.75, whose rounding is 64, but the byte sent is
    63. *)
Lemma Brightness_three_quarters_sends_63 :
  match Q_of_float (dyadic 3 (-2)) with
  | Some q => (q == 3 # 4)%Q
  | None => False
  end /\
  spec_level_byte (3 # 4) = 64 /\
  Brightness_bl_val (LFloat (dyadic 3 (-2))) = Ret 63 /\
  writes (trace (ser (snd (Brightness (LFloat (dyadic 3 (-2))) quiet_session))))
  = writes (trace (ser quiet_session)) ++ ["BL(63)" +:+ CRLF].
Proof.
  split; [vm_compute; reflexivity|].
  split; [vm_compute; reflexivity|].
  assert (E : Brightness_bl_val (LFloat (dyadic 3 (-2))) = Ret 63)
    by (vm_compute; reflexivity).
  split; [exact E|].
  rewrite (Brightness_clamp _ _ quiet_session E). apply send_serial_writes.
Qed.

(** C7, amended.  For every level whose conversion succeeds the byte sent
    is int((1.0 - float(level)) * 255), that is the binary64 product
    truncated toward zero (not rounded), clamped to [0, 255]; a level for
    which the conversion raises sends nothing and reports failure.
    [Brightness(0.0)] sends byte 255 and [Brightness(1.0)] sends byte 0. *)
Theorem Brightness_byte (level : level_arg) (s : SunLCD) :
  (forall v, Brightness_bl_val level = Ret v ->
     0 <= clamp_byte v <= 255 /\
     Brightness level s =
       send_serial ("BL(" +:+ str (clamp_byte v) +:+ ")") s) /\
  (forall e, Brightness_bl_val level = Raise e ->
     Brightness level s = (false, s)) /\
  (forall f sg m e,
     py_float level = Ret f ->
     SFmul prec64 emax64 (SFsub prec64 emax64 (float_of_Z 1) f)
       (float_of_Z 255) = S754_finite sg m e ->
     exists n, 0 <= n /\
       Brightness_bl_val level = Ret (if sg then - n else n) /\
       (0 <= e -> n = Z.pos m * 2 ^ e) /\
       (e < 0 -> n * 2 ^ (- e) <= Z.pos m < (n + 1) * 2 ^ (- e))) /\
  Brightness (LFloat (float_of_Z 0)) s = send_serial "BL(255)" s /\
  Brightness (LFloat (float_of_Z 1)) s = send_serial "BL(0)" s.
Proof.
  split; [|split; [|split; [|split]]].
  - intros v H. split; [unfold clamp_byte; lia|]. now apply Brightness_clamp.
  - intros e H. now apply Brightness_raise with (e := e).
  - intros f sg m e Hf Hp. exists (Z.shiftl (Z.pos m) e).
    split; [apply Z.shiftl_nonneg; lia|]. split.
    + unfold Brightness_bl_val. rewrite Hf, Hp. unfold py_int, cond_Zopp.
      reflexivity.
    + split.
      * intros He. now apply Z.shiftl_mul_pow2.
      * intros He. rewrite Z.shiftl_div_pow2 by lia.
        assert (P : 0 < 2 ^ (- e)) by (apply Z.pow_pos_nonneg; lia).
        pose proof (Z.mul_div_le (Z.pos m) (2 ^ (- e)) P).
        pose proof (Z.mul_succ_div_gt (Z.pos m) (2 ^ (- e)) P).
        lia.
  - assert (E : Brightness_bl_val (LFloat (float_of_Z 0)) = Ret 255)
      by (vm_compute; reflexivity).
    rewrite (Brightness_clamp _ _ s E). reflexivity.
  - assert (E : Brightness_bl_val (LFloat (float_of_Z 1)) = Ret 0)
      by (vm_compute; reflexivity).
    rewrite (Brightness_clamp _ _ s E). reflexivity.
Qed.

Lemma Brightness_byte_witness :
  Brightness (LFloat (dyadic 1 (-1))) quiet_session =
    send_serial "BL(127)" quiet_session /\
  Brightness (LFloat S754_nan) quiet_session = (false, quiet_session).
Proof.
  destruct (Brightness_byte (LFloat (dyadic 1 (-1))) quiet_session)
    as (H & _).
  destruct (Brightness_byte (LFloat S754_nan) quiet_session) as (_ & R & _).
  split.
  - exact (proj2 (H 127 ltac:(vm_compute; reflexivity))).
  - exact (R ValueError ltac:(vm_compute; reflexivity)).
Defined.

(** C8, as stated, fails: [Brightness(-1)] sends the command BL(255), and
    when the device answers it returns true. *)
Lemma minus_one_brightness_is_sent :
  fst (Brightness (LInt (-1)) answered_session) = true /\
  writes (trace (ser (snd (Brightness (LInt (-1)) answered_session)))) =
    writes (trace (ser answered_session)) ++ ["BL(255)" +:+ CRLF].
Proof.
  assert (E : Brightness_bl_val (LInt (-1)) = Ret 510)
    by (vm_compute; reflexivity).
  split; [vm_compute; reflexivity|].
  rewrite (Brightness_clamp _ _ answered_session E). apply send_serial_writes.
Qed.

(** C8, amended.  -1 is a number: [Brightness(-1)] computes 510, clamps it
    to 255 and sends BL(255); its result is the outcome of that
    transmission.  [Brightness] reports failure without sending any command
    only for a level that the conversion rejects: whenever the conversion
    raises it returns false and leaves the session, port included,
    untouched, and whenever it writes nothing to the port the conversion
    has raised; otherwise it writes exactly the one command BL(byte).  The
    conversion raises exactly for an object [float()] refuses, an integer
    too large for a float, and a level for which (1.0 - level) * 255 is a
    NaN or an infinity. *)
Theorem Brightness_minus_one (s : SunLCD) :
  Brightness (LInt (-1)) s = send_serial "BL(255)" s /\
  writes (trace (ser (snd (Brightness (LInt (-1)) s)))) =
    writes (trace (ser s)) ++ ["BL(255)" +:+ CRLF] /\
  Brightness LBad s = (false, s) /\
  Brightness (LFloat S754_nan) s = (false, s) /\
  (forall sg, Brightness (LFloat (S754_infinity sg)) s = (false, s)) /\
  (forall level e,
     Brightness_bl_val level = Raise e -> Brightness level s = (false, s)) /\
  (forall level,
     writes (trace (ser (snd (Brightness level s)))) = writes (trace (ser s)) ->
     exists e, Brightness_bl_val level = Raise e) /\
  (forall level v,
     Brightness_bl_val level = Ret v ->
     writes (trace (ser (snd (Brightness level s)))) =
       writes (trace (ser s)) ++
       [("BL(" +:+ str (clamp_byte v) +:+ ")") +:+ CRLF]) /\
  (forall level,
     (exists e, Brightness_bl_val level = Raise e) <->
     match py_float level with
     | Raise _ => True
     | Ret f =>
         match SFmul prec64 emax64
                 (SFsub prec64 emax64 (float_of_Z 1) f) (float_of_Z 255) with
         | S754_nan | S754_infinity _ => True
         | _ => False
         end
     end) /\
  (forall level,
     (exists e, py_float level = Raise e) <->
     level = LBad \/
     exists z sg, level = LInt z /\ float_of_Z z = S754_infinity sg).
Proof.
  assert (E : Brightness_bl_val (LInt (-1)) = Ret 510)
    by (vm_compute; reflexivity).
  split; [rewrite (Brightness_clamp _ _ s E); reflexivity|].
  split; [rewrite (Brightness_clamp _ _ s E); apply send_serial_writes|].
  split; [reflexivity|]. split; [reflexivity|].
  split; [intros []; reflexivity|].
  split; [intros level e He; eapply Brightness_raise; exact He|].
  split.
  { intros level H. destruct (Brightness_bl_val level) as [v|e] eqn:B;
      [|now exists e].
    rewrite (Brightness_clamp _ _ s B), send_serial_writes in H.
    apply (f_equal (@length string)) in H. rewrite length_app in H.
    cbn [length] in H. lia. }
  split.
  { intros level v B. rewrite (Brightness_clamp _ _ s B).
    apply send_serial_writes. }
  split.
  - intros level. unfold Brightness_bl_val.
    destruct (py_float level) as [f|e].
    + destruct (SFmul prec64 emax64 (SFsub prec64 emax64 (float_of_Z 1) f)
                  (float_of_Z 255)) as [sg|sg| |sg m e]; cbn [py_int];
        split; try tauto; try (intros [e' H]; discriminate);
        intros _; eexists; reflexivity.
    + split; [tauto|]. intros _. now exists e.
  - intros level. unfold py_float. destruct level as [z|f|].
    + destruct (float_of_Z z) as [sg|sg| |sg m e] eqn:F; split;
        try (intros [e' H]; discriminate);
        try (intros [H|(z' & sg' & Hz & Hi)];
             [discriminate|inversion Hz; subst; congruence]).
      * intros _. right. exists z, sg. split; [reflexivity|exact F].
      * intros _. now exists OverflowError.
    + split; [intros [e' H]; discriminate|].
      intros [H|(z' & sg' & Hz & _)]; discriminate.
    + split; [intros _; now left|]. intros _. now exists TypeError.
Qed.

(** * Further properties of the driver *)

(** ** Serial exchange *)

(** [send_serial] answers true exactly when one of the next ten drains
    holds a line feed. *)
Lemma send_serial_result cmd s :
  fst (send_serial cmd s) = existsb has_line (chunks_upto 10 (ser s)).
Proof.
  unfold send_serial. set (s3 := set_ser _ _).
  assert (C : forall j, chunk_at (ser s3) j = chunk_at (ser s) j) by reflexivity.
  destruct (send_serial_loop_spec 10 s3) as (k & Hk & _ & _ & _ & Hres).
  destruct (fst (send_serial_loop 10 s3)).
  - destruct Hres as (k' & -> & Hl & _). symmetry.
    apply existsb_exists. exists (chunk_at (ser s) k').
    split; [|now rewrite <- C].
    unfold chunks_upto. apply in_map. apply in_seq. lia.
  - destruct Hres as (_ & Hall & _). symmetry.
    destruct (existsb has_line (chunks_upto 10 (ser s))) eqn:E; [|reflexivity].
    apply existsb_exists in E as (x & Hin & Hx).
    unfold chunks_upto in Hin. apply in_map_iff in Hin as (j & <- & Hj).
    apply in_seq in Hj. rewrite <- C, Hall in Hx; [discriminate|lia].
Qed.

(** X1. The constructor writes an empty line and then RESET; it sends the
    background command SBC(0) only when the reset was answered, that is
    when one of the first ten drains of the port holds a line feed.  The
    registries start empty, the cursor at (0,0), the allocator at
    2097152, the orientation vertical. *)
Theorem init_handshake (port : Serial) (width height : Z) :
  writes (trace (ser (init port width height))) =
    writes (trace port) ++ [CRLF; "RESET" +:+ CRLF] ++
    (if existsb has_line (chunks_upto 10 port)
     then ["SBC(0)" +:+ CRLF] else []) /\
  cursor (init port width height) = (0, 0) /\
  img_list (init port width height) = [] /\
  img_offset (init port width height) = 2097152 /\
  font_list (init port width height) = [] /\
  lcd_dims (init port width height) = (width, height).
Proof.
  destruct (init_fresh port width height) as (Hc & Hl & Ho & Hf & Hor & Hw & Hh).
  split; [|repeat split; try assumption;
           unfold lcd_dims; rewrite Hor, Hw, Hh; reflexivity].
  unfold init, Reset, Background.
  set (s0 := set_ser _ _).
  assert (R : chunks_upto 10 port = chunks_upto 10 (ser s0)) by reflexivity.
  rewrite R, <- (send_serial_result "RESET" s0).
  pose proof (send_serial_writes "RESET" s0) as W1.
  destruct (send_serial "RESET" s0) as [[|] s1]; cbn [fst snd] in *.
  - rewrite send_serial_writes, W1. subst s0. cbn [ser set_ser trace Serial_write].
    assert (Wa : forall a b, writes (a ++ b) = writes a ++ writes b).
    { induction a as [|[] a IH]; intros b; simpl; rewrite ?IH; reflexivity. }
    rewrite Wa. cbn [writes]. rewrite <- !app_assoc. reflexivity.
  - rewrite W1. subst s0. cbn [ser set_ser trace Serial_write].
    assert (Wa : forall a b, writes (a ++ b) = writes a ++ writes b).
    { induction a as [|[] a IH]; intros b; simpl; rewrite ?IH; reflexivity. }
    rewrite Wa. cbn [writes]. rewrite <- !app_assoc. reflexivity.
Qed.

(** X2. [ReadBack] answers [None] exactly when the waiting bytes hold no
    line feed; it then changes neither the acknowledgement flag nor the
    status text nor any registry, and appends the bytes to the pending
    buffer.  Otherwise it answers [True]. *)
Theorem ReadBack_without_line (s : SunLCD) :
  (fst (ReadBack s) = None <-> has_line (chunk_at (ser s) 0) = false) /\
  (fst (ReadBack s) = Some true <-> has_line (chunk_at (ser s) 0) = true) /\
  (has_line (chunk_at (ser s) 0) = false ->
   ok (snd (ReadBack s)) = ok s /\
   response_body (snd (ReadBack s)) = response_body s /\
   _buf (snd (ReadBack s)) = _buf s +:+ chunk_at (ser s) 0 /\
   frame s (snd (ReadBack s))).
Proof.
  destruct (has_line (chunk_at (ser s) 0)) eqn:H.
  - destruct (ReadBack_answer s H) as [_ E]. rewrite E. cbn [fst].
    repeat split; try discriminate; reflexivity.
  - rewrite (ReadBack_silent s H). cbn [fst snd].
    repeat split; try discriminate; reflexivity.
Qed.

Lemma Serial_drain_rx p : rx (snd (Serial_drain p)) = drop 1 (rx p).
Proof. unfold Serial_drain. now destruct (rx p). Qed.

Lemma send_serial_loop_timeout i : forall s,
  fst (send_serial_loop i s) = false ->
  rx (ser (snd (send_serial_loop i s))) = drop i (rx (ser s)).
Proof.
  induction i as [|i IH]; intros s H; [reflexivity|].
  cbn [send_serial_loop] in *.
  set (s1 := set_ser (Serial_sleep 100 (ser s)) s) in *.
  destruct (has_line (chunk_at (ser s1) 0)) eqn:H0.
  - destruct (ReadBack_answer s1 H0) as [_ E]. rewrite E in H. discriminate.
  - rewrite (ReadBack_silent s1 H0) in *.
    rewrite IH by exact H. cbn [ser set_buf set_ser].
    rewrite Serial_drain_rx, drop_drop. reflexivity.
Qed.

(** X3. A [send_serial] that times out has drained ten chunks of the port
    and has kept every byte it read: the pending buffer is the old one
    followed by those ten chunks, so an unterminated answer becomes the
    beginning of the first line of the next exchange. *)
Theorem send_serial_timeout_keeps_bytes (cmd : string) (s : SunLCD) :
  fst (send_serial cmd s) = false ->
  rx (ser (snd (send_serial cmd s))) = drop 10 (rx (ser s)) /\
  _buf (snd (send_serial cmd s)) =
    _buf s +:+ concat_str (chunks_upto 10 (ser s)) /\
  ok (snd (send_serial cmd s)) = false /\
  response_body (snd (send_serial cmd s)) = EmptyString.
Proof.
  unfold send_serial. set (s3 := set_ser _ _). intros H.
  split; [exact (send_serial_loop_timeout 10 s3 H)|].
  destruct (send_serial_loop_spec 10 s3) as (k & _ & _ & _ & _ & Hres).
  rewrite H in Hres. destruct Hres as (_ & _ & Hok & Hbody & Hbuf).
  repeat split; assumption.
Qed.

Lemma send_serial_timeout_keeps_bytes_witness :
  _buf (snd (send_serial "VER"
               (set_ser (mkSerial ["O"; "K"] []) quiet_session))) = "OK".
Proof.
  destruct (send_serial_timeout_keeps_bytes "VER"
              (set_ser (mkSerial ["O"; "K"] []) quiet_session))
    as (_ & H & _); [vm_compute; reflexivity|].
  rewrite H. vm_compute. reflexivity.
Defined.

(** ** Orientation and cursor edge cases *)

(** X4. [Orientation] accepts only 0 and 1: it then records the
    orientation, sends DIR(0) or DIR(1) and returns the outcome of that
    transmission; the logical dimensions used by the text renderer are
    swapped for 1 and unswapped for 0.  Any other value returns false and
    leaves the session, port included, untouched. *)
Theorem Orientation_cases (orientation : Z) (s : SunLCD) :
  (orientation = 0 \/ orientation = 1 ->
   current_orientation (snd (Orientation orientation s)) = orientation /\
   writes (trace (ser (snd (Orientation orientation s)))) =
     writes (trace (ser s)) ++
     [("DIR(" +:+ str orientation +:+ ")") +:+ CRLF] /\
   fst (Orientation orientation s) =
     existsb has_line (chunks_upto 10 (ser s)) /\
   lcd_dims (snd (Orientation orientation s)) =
     (if orientation =? 1 then (standard_height s, standard_width s)
      else (standard_width s, standard_height s))) /\
  (orientation <> 0 -> orientation <> 1 ->
   Orientation orientation s = (false, s)).
Proof.
  split.
  - intros H.
    assert (E : Orientation orientation s =
                send_serial ("DIR(" +:+ str orientation +:+ ")")
                  (set_current_orientation orientation s)).
    { unfold Orientation. destruct H as [-> | ->]; reflexivity. }
    rewrite E.
    destruct (send_serial_frame ("DIR(" +:+ str orientation +:+ ")")
                (set_current_orientation orientation s))
      as (_ & _ & _ & _ & Ho & Hw & Hh).
    split; [exact Ho|].
    split; [exact (send_serial_writes _ (set_current_orientation orientation s))|].
    split; [exact (send_serial_result _ (set_current_orientation orientation s))|].
    unfold lcd_dims. rewrite Ho, Hw, Hh. reflexivity.
  - intros H0 H1. unfold Orientation.
    destruct (orientation =? 0) eqn:E0; [lia|].
    destruct (orientation =? 1) eqn:E1; [lia|]. reflexivity.
Qed.

Lemma Orientation_cases_witness :
  lcd_dims (snd (Orientation 1 quiet_session)) = (320, 240) /\
  Orientation 7 quiet_session = (false, quiet_session).
Proof.
  destruct (Orientation_cases 1 quiet_session) as [H1 _].
  destruct (Orientation_cases 7 quiet_session) as [_ H7].
  split.
  - destruct (H1 (or_intror eq_refl)) as (_ & _ & _ & Hd).
    rewrite Hd.
    destruct (init_fresh silent_port 240 320) as (_ & _ & _ & _ & _ & Hw & Hh).
    unfold quiet_session. rewrite Hw, Hh. reflexivity.
  - apply H7; lia.
Defined.

(** X5. A position that is not a tuple or list of exactly two elements is
    refused without any effect: [MoveTo] returns false and keeps the
    cursor, [LineTo] returns [None] (not false), sends nothing and keeps
    the cursor. *)
Theorem cursor_methods_reject (items : list Z) (color : Z) (s : SunLCD) :
  length items <> 2%nat ->
  MoveTo (PyTuple items) s = (false, s) /\
  MoveTo (PyList items) s = (false, s) /\
  MoveTo PyOther s = (false, s) /\
  LineTo (PyTuple items) color s = (None, s) /\
  LineTo (PyList items) color s = (None, s) /\
  LineTo PyOther color s = (None, s).
Proof.
  intros H.
  assert (T : position_items (PyTuple items) = None).
  { destruct items as [|x [|y [|z r]]]; try reflexivity. now elim H. }
  assert (L : position_items (PyList items) = None).
  { destruct items as [|x [|y [|z r]]]; try reflexivity. now elim H. }
  unfold MoveTo, LineTo. rewrite T, L. repeat split; reflexivity.
Qed.

Lemma cursor_methods_reject_witness :
  MoveTo (PyTuple [1; 2; 3]) quiet_session = (false, quiet_session) /\
  LineTo (PyList [4]) 15 quiet_session = (None, quiet_session).
Proof.
  destruct (cursor_methods_reject [1; 2; 3] 15 quiet_session) as (H & _);
    [cbn [length]; lia|].
  destruct (cursor_methods_reject [4] 15 quiet_session) as (_ & _ & _ & _ & G & _);
    [cbn [length]; lia|].
  split; assumption.
Defined.

(** ** Registry *)

(** X6. The id returned by [ListImage] shows the image just registered:
    [ShowImage] with that id sends FSIMG with the address the cursor had
    before the registration and the registered size; and the registration
    leaves the entry of every earlier id as it was. *)
Theorem ListImage_then_ShowImage (size position : Z * Z) (transparent : Z)
    (s : SunLCD) :
  ShowImage (fst (ListImage size s)) position transparent (snd (ListImage size s)) =
    (let '(res, s1) :=
       send_serial (FSIMG (img_offset s) position size transparent)
         (snd (ListImage size s)) in
     (Ret res, s1)) /\
  (forall id, 0 <= id < Z.of_nat (length (img_list s)) ->
     index (img_list (snd (ListImage size s))) id = index (img_list s) id).
Proof.
  rewrite ListImage_spec. cbn [fst snd]. split.
  - unfold ShowImage, RawImage. cbn [img_list set_img_offset set_img_list].
    rewrite length_app. cbn [length].
    replace (Z.of_nat (length (img_list s) + 1) - 1)
      with (Z.of_nat (length (img_list s))) by lia.
    rewrite Z.gtb_ltb, Z.ltb_irrefl.
    rewrite (index_nonneg _ _ (img_offset s, size)); [reflexivity|lia|].
    rewrite Nat2Z.id, lookup_app_r by lia. now rewrite Nat.sub_diag.
  - intros id H. cbn [img_list set_img_offset set_img_list].
    destruct (lookup_lt_is_Some_2 (img_list s) (Z.to_nat id)) as [a Ha]; [lia|].
    rewrite (index_nonneg (img_list s) id a) by (try lia; exact Ha).
    apply index_nonneg; [lia|]. rewrite lookup_app_l; [exact Ha|lia].
Qed.

Lemma registry_frame_refl s : registry_frame s s.
Proof. unfold registry_frame; tauto. Qed.

Lemma registry_frame_trans s1 s2 s3 :
  registry_frame s1 s2 -> registry_frame s2 s3 -> registry_frame s1 s3.
Proof. unfold registry_frame. intuition congruence. Qed.

Lemma frame_registry_frame s s' : frame s s' -> registry_frame s s'.
Proof. unfold frame, registry_frame. tauto. Qed.

Lemma MoveTo_registry_frame position s :
  registry_frame s (snd (MoveTo position s)).
Proof.
  unfold MoveTo. destruct (position_items position) as [[x y]|];
    unfold registry_frame; simpl; tauto.
Qed.

Lemma run_registry_frame o s :
  registers o = false -> registry_frame s (run o s).
Proof.
  intros Hr.
  destruct o; try discriminate; cbn [run];
    try (apply frame_registry_frame;
         first [ apply send_serial_frame | apply ReadBack_frame ]).
  - unfold Baudrate.
    pose proof (send_serial_frame ("BPS(" +:+ str baudrate +:+ ")") s) as F.
    destruct (send_serial _ s) as [res s1].
    apply frame_registry_frame in F. exact F.
  - unfold On. apply frame_registry_frame.
    match goal with
    | |- context [if ?b then _ else _] => destruct b
    end; apply send_serial_frame.
  - unfold Orientation.
    destruct (orientation =? 0); [|destruct (orientation =? 1)];
      try apply registry_frame_refl;
      (eapply registry_frame_trans;
       [|apply frame_registry_frame, send_serial_frame]);
      unfold registry_frame; simpl; tauto.
  - unfold Brightness. destruct (Brightness_bl_val level);
      [apply frame_registry_frame, send_serial_frame
      |apply registry_frame_refl].
  - apply MoveTo_registry_frame.
  - unfold LineTo. destruct (position_items position) as [p|];
      [|apply registry_frame_refl].
    unfold Line.
    pose proof (send_serial_frame (cmd4 "PL" (cursor s) p color) s) as F.
    destruct (send_serial _ s) as [[|] s1]; apply frame_registry_frame in F;
      [|exact F].
    pose proof (MoveTo_registry_frame position s1) as M.
    destruct (MoveTo position s1) as [r s2].
    eapply registry_frame_trans; eassumption.
  - unfold ShowImage.
    destruct (image_id >? _); [apply registry_frame_refl|].
    destruct (index (img_list s) image_id) as [info|e];
      [|apply registry_frame_refl].
    unfold RawImage.
    pose proof (send_serial_frame
                  (FSIMG (fst info) position (snd info) transparent) s) as F.
    destruct (send_serial _ s) as [res s1].
    apply frame_registry_frame in F. exact F.
  - unfold TextFont.
    destruct (font_id >? _); [apply registry_frame_refl|].
    destruct (index (font_list s) font_id) as [f|e];
      [|apply registry_frame_refl].
    destruct (lcd_dims s) as [lcd_w lcd_h].
    apply frame_registry_frame, TextFont_loop_frame.
Qed.

Lemma Forall_registers_run_all ops : forall s,
  forallb (fun o => negb (registers o)) ops = true ->
  registry_frame s (run_all ops s).
Proof.
  induction ops as [|o ops IH]; intros s H; [apply registry_frame_refl|].
  cbn [forallb] in H. apply andb_true_iff in H as [Ho Hops].
  apply negb_true_iff in Ho. cbn [run_all fold_left].
  eapply registry_frame_trans; [apply run_registry_frame, Ho|].
  apply IH, Hops.
Qed.

(** X7. Only [ListImage] and [ListFont] change the image registry, the
    font registry or the allocator cursor: any sequence of the other
    operations, whatever the device answers and whatever their arguments
    (failing and raising calls included), leaves all three as they
    were. *)
Theorem only_registrations_change_registry (ops : list op) (s : SunLCD) :
  forallb (fun o => negb (registers o)) ops = true ->
  img_list (run_all ops s) = img_list s /\
  img_offset (run_all ops s) = img_offset s /\
  font_list (run_all ops s) = font_list s.
Proof. intros H. exact (Forall_registers_run_all ops s H). Qed.

Lemma only_registrations_change_registry_witness :
  img_offset
    (run_all [OpReset; OpShowImage 5 (0, 0) 0; OpOrientation 1;
              OpTextFont (-3) (0, 0) "abc" 0; OpLineTo (PyTuple [3; 4]) 15;
              OpBrightness LBad]
       (snd (ListImage (16, 16) quiet_session)))
  = img_offset (snd (ListImage (16, 16) quiet_session)).
Proof.
  exact (proj1 (proj2
    (only_registrations_change_registry
       [OpReset; OpShowImage 5 (0, 0) 0; OpOrientation 1;
        OpTextFont (-3) (0, 0) "abc" 0; OpLineTo (PyTuple [3; 4]) 15;
        OpBrightness LBad]
       (snd (ListImage (16, 16) quiet_session)) eq_refl))).
Defined.

(** ** Fonts *)

Lemma last_pos_None c l :
  last_pos c l = None -> forall j, l !! j <> Some c.
Proof.
  induction l as [|x l IH]; intros H j; [discriminate|].
  cbn [last_pos] in H. destruct (last_pos c l) as [k|]; [discriminate|].
  destruct (decide (x = c)) as [|Hne]; [discriminate|].
  destruct j as [|j]; cbn; [congruence | now apply IH].
Qed.

Lemma last_pos_Some c l : forall i,
  last_pos c l = Some i ->
  l !! i = Some c /\ forall j, (i < j)%nat -> l !! j <> Some c.
Proof.
  induction l as [|x l IH]; intros i H; [discriminate|].
  cbn [last_pos] in H. destruct (last_pos c l) as [k|] eqn:E.
  - inversion H; subst. destruct (IH k eq_refl) as [H1 H2].
    split; [exact H1|]. intros [|j] Hj; [lia|]. cbn. apply H2. lia.
  - destruct (decide (x = c)) as [->|]; [|discriminate].
    inversion H; subst. split; [reflexivity|].
    intros [|j] Hj; [lia|]. cbn. now apply last_pos_None.
Qed.

Lemma last_pos_spec c l i :
  last_pos c l = Some i <->
  l !! i = Some c /\ forall j, (i < j)%nat -> l !! j <> Some c.
Proof.
  split; [apply last_pos_Some|]. intros [H1 H2].
  destruct (last_pos c l) as [k|] eqn:E.
  - destruct (last_pos_Some _ _ _ E) as [K1 K2]. f_equal.
    destruct (Nat.lt_trichotomy k i) as [L|[L|L]]; [|exact L|].
    + exfalso. exact (K2 i L H1).
    + exfalso. exact (H2 k L K1).
  - exfalso. exact (last_pos_None _ _ E i H1).
Qed.

Lemma ListFont_loop_lookup char_size char_list : forall this_font s c,
  fst (ListFont_loop char_size char_list this_font s) !! c =
  match last_pos c (list_ascii_of_string char_list) with
  | Some i => Some (Z.of_nat (length (img_list s) + i))
  | None => this_font !! c
  end.
Proof.
  induction char_list as [|x rest IH]; intros this_font s c;
    cbn [ListFont_loop list_ascii_of_string last_pos fst]; [reflexivity|].
  rewrite ListImage_spec, IH.
  cbn [img_list set_img_offset set_img_list]. rewrite length_app. cbn [length].
  destruct (last_pos c (list_ascii_of_string rest)) as [i|].
  - f_equal. lia.
  - destruct (decide (x = c)) as [->|Hne].
    + rewrite lookup_insert_eq. f_equal. lia.
    + now rewrite lookup_insert_ne.
Qed.

Lemma layout_from_app offset a b :
  layout_from offset (a ++ b) =
  layout_from offset a ++ layout_from (offset + sum_byte_len a) b.
Proof.
  revert offset. induction a as [|x a IH]; intros offset; simpl.
  - f_equal. lia.
  - rewrite IH. do 3 f_equal. lia.
Qed.

Lemma layout_from_length sizes : forall offset,
  length (layout_from offset sizes) = length sizes.
Proof.
  induction sizes as [|x l IH]; intros offset; cbn [layout_from length];
    [reflexivity | now rewrite IH].
Qed.

Lemma ListFont_loop_imgs char_size char_list : forall this_font s,
  img_list (snd (ListFont_loop char_size char_list this_font s)) =
    img_list s ++
    layout_from (img_offset s) (repeat char_size (String.length char_list)) /\
  img_offset (snd (ListFont_loop char_size char_list this_font s)) =
    img_offset s + Z.of_nat (String.length char_list) * byte_len char_size.
Proof.
  induction char_list as [|x rest IH]; intros this_font s;
    cbn [ListFont_loop String.length repeat layout_from snd].
  - rewrite app_nil_r. split; [reflexivity|lia].
  - rewrite ListImage_spec.
    destruct (IH (<[x:=Z.of_nat (length (img_list s))]> this_font)
                (set_img_offset (img_offset s + byte_len char_size)
                   (set_img_list (img_list s ++ [(img_offset s, char_size)]) s)))
      as [H1 H2].
    rewrite H1, H2. cbn [img_list img_offset set_img_offset set_img_list].
    rewrite <- app_assoc. split; [reflexivity|lia].
Qed.

Lemma layout_from_repeat_lookup size n : forall offset i,
  (i < n)%nat ->
  layout_from offset (repeat size n) !! i =
  Some (offset + Z.of_nat i * byte_len size, size).
Proof.
  induction n as [|n IH]; intros offset i H; [lia|].
  cbn [repeat layout_from]. destruct i as [|i]; cbn.
  - do 2 f_equal. lia.
  - rewrite IH by lia. do 2 f_equal. lia.
Qed.

(** X8. [ListFont] returns the index of the font it appends.  The new font
    maps every character of [char_list] to the image registered for its
    last occurrence (earlier duplicates are overwritten, characters not in
    the list are absent); the image of the occurrence at position i is
    number i after the images already registered, and sits i glyph lengths
    after the old cursor.  One image per character, duplicates included, is
    registered, and the cursor advances by len(char_list)*w*h*2. *)
Theorem ListFont_builds_font (char_size : Z * Z) (char_list : string)
    (s : SunLCD) :
  fst (ListFont char_size char_list s) = Z.of_nat (length (font_list s)) /\
  img_offset (snd (ListFont char_size char_list s)) =
    img_offset s + Z.of_nat (String.length char_list) * byte_len char_size /\
  length (img_list (snd (ListFont char_size char_list s))) =
    (length (img_list s) + String.length char_list)%nat /\
  exists this_font,
    font_list (snd (ListFont char_size char_list s)) =
      font_list s ++ [this_font] /\
    index (font_list (snd (ListFont char_size char_list s)))
      (fst (ListFont char_size char_list s)) = Ret this_font /\
    (forall c,
       last_pos c (list_ascii_of_string char_list) = None ->
       this_font !! c = None) /\
    (forall c i,
       last_pos c (list_ascii_of_string char_list) = Some i ->
       this_font !! c = Some (Z.of_nat (length (img_list s) + i)) /\
       index (img_list (snd (ListFont char_size char_list s)))
         (Z.of_nat (length (img_list s) + i)) =
       Ret (img_offset s + Z.of_nat i * byte_len char_size, char_size)) /\
    (forall c i,
       last_pos c (list_ascii_of_string char_list) = Some i <->
       list_ascii_of_string char_list !! i = Some c /\
       forall j, (i < j)%nat -> list_ascii_of_string char_list !! j <> Some c).
Proof.
  pose proof (ListFont_font_list char_size char_list s) as Hfl.
  pose proof (ListFont_loop_lookup char_size char_list ∅ s) as Hlk.
  destruct (ListFont_loop_imgs char_size char_list ∅ s) as [Hil Hio].
  pose proof (ListFont_loop_font_list char_size char_list ∅ s) as Hff.
  unfold ListFont in *.
  destruct (ListFont_loop char_size char_list ∅ s) as [f s1].
  cbn [fst snd font_list img_list img_offset set_font_list] in *.
  assert (Hlen : length (layout_from (img_offset s)
                           (repeat char_size (String.length char_list))) =
                 String.length char_list)
    by (rewrite layout_from_length; apply repeat_length).
  split; [rewrite length_app, Hff; cbn [length]; lia|].
  split; [exact Hio|].
  split; [rewrite Hil, length_app, Hlen; reflexivity|].
  exists f. split; [rewrite Hff; reflexivity|]. split.
  { apply index_nonneg; [rewrite length_app; cbn [length]; lia|].
    rewrite length_app, Hff. cbn [length].
    replace (Z.to_nat (Z.of_nat (length (font_list s) + 1) - 1))
      with (length (font_list s)) by lia.
    rewrite lookup_app_r by lia. now rewrite Nat.sub_diag. }
  split.
  { intros c Hc. rewrite Hlk, Hc. apply lookup_empty. }
  split; [|intros c i; apply last_pos_spec].
  intros c i Hc. split; [rewrite Hlk, Hc; reflexivity|].
  assert (Hi : (i < String.length char_list)%nat).
  { destruct (last_pos_Some _ _ _ Hc) as [Hl _].
    apply lookup_lt_Some in Hl.
    replace (String.length char_list)
      with (length (list_ascii_of_string char_list)); [exact Hl|].
    clear. induction char_list as [|x r IH]; cbn; [reflexivity|now rewrite IH]. }
  apply index_nonneg; [lia|].
  rewrite Nat2Z.id, Hil, lookup_app_r by lia.
  replace (length (img_list s) + i - length (img_list s))%nat with i by lia.
  now apply layout_from_repeat_lookup.
Qed.

(** ** Invariants of every reachable session *)

Lemma sum_byte_len_app a b :
  sum_byte_len (a ++ b) = sum_byte_len a + sum_byte_len b.
Proof.
  induction a as [|x a IH]; simpl; [reflexivity|]. rewrite IH. lia.
Qed.

Lemma sequential_ListImage size s :
  sequential s -> sequential (snd (ListImage size s)).
Proof.
  intros [Hl Ho]. rewrite ListImage_spec. unfold sequential.
  cbn [snd img_list img_offset set_img_offset set_img_list].
  rewrite map_app, layout_from_app, sum_byte_len_app. cbn [map layout_from].
  rewrite <- Hl, <- Ho. split; [reflexivity|].
  unfold sum_byte_len at 2. cbn [fold_right snd]. lia.
Qed.

Lemma sequential_ListFont_loop char_size char_list : forall this_font s,
  sequential s ->
  sequential (snd (ListFont_loop char_size char_list this_font s)).
Proof.
  induction char_list as [|c rest IH]; intros this_font s H;
    cbn [ListFont_loop]; [exact H|].
  pose proof (sequential_ListImage char_size s H) as H1.
  rewrite ListImage_spec in *. cbn [fst snd] in *. apply IH. exact H1.
Qed.

Lemma sequential_frame s s' :
  registry_frame s s' -> sequential s -> sequential s'.
Proof. intros (Hl & Ho & _). unfold sequential. now rewrite Hl, Ho. Qed.

Lemma sequential_run o s : sequential s -> sequential (run o s).
Proof.
  intros H. destruct (registers o) eqn:R.
  - destruct o; try discriminate; cbn [run].
    + now apply sequential_ListImage.
    + unfold ListFont.
      pose proof (sequential_ListFont_loop char_size char_list ∅ s H) as L.
      destruct (ListFont_loop char_size char_list ∅ s) as [f s1]. exact L.
  - eapply sequential_frame; [apply run_registry_frame, R|exact H].
Qed.

Lemma layout_from_upper sizes : forall offset j b,
  Forall valid_size sizes ->
  layout_from offset sizes !! j = Some b ->
  fst b + byte_len (snd b) <= offset + sum_byte_len sizes.
Proof.
  induction sizes as [|size rest IH]; intros offset j b Hv Hj; [discriminate|].
  inversion Hv as [|? ? Hs Hr]; subst.
  assert (S0 : 0 <= sum_byte_len rest).
  { clear - Hr. induction Hr as [|x l Hx _ IHl]; simpl; [lia|].
    pose proof (byte_len_nonneg _ Hx). lia. }
  destruct j as [|j]; simpl in Hj.
  - inversion Hj; subst. simpl. lia.
  - pose proof (IH _ _ _ Hr Hj). simpl. lia.
Qed.

(** X9. On every session reached from the constructor by any sequence of
    operations, the image registry is the sequential layout of its own
    sizes starting at 2097152 and the cursor is 2097152 plus the sum of
    their byte lengths.  When the registered sizes are valid the ranges do
    not overlap and every range lies between the base offset and the
    cursor. *)
Theorem reachable_layout (port : Serial) (width height : Z) (ops : list op) :
  sequential (run_all ops (init port width height)) /\
  (Forall valid_size (map snd (img_list (run_all ops (init port width height)))) ->
   no_overlap (img_list (run_all ops (init port width height))) /\
   forall i e,
     img_list (run_all ops (init port width height)) !! i = Some e ->
     2097152 <= fst e /\
     fst e + byte_len (snd e) <= img_offset (run_all ops (init port width height))).
Proof.
  assert (S0 : sequential (init port width height)).
  { destruct (init_fresh port width height) as (_ & Hl & Ho & _).
    unfold sequential. rewrite Hl, Ho. split; reflexivity. }
  assert (S1 : forall l s, sequential s -> sequential (run_all l s)).
  { induction l as [|o l IH]; intros s H; [exact H|].
    cbn [run_all fold_left]. apply IH. now apply sequential_run. }
  pose proof (S1 ops _ S0) as [Hl Ho].
  split; [split; assumption|]. intros Hv.
  rewrite Hl, Ho. split; [now apply layout_from_no_overlap|].
  intros i e He. split.
  - eapply layout_from_lower; eassumption.
  - eapply layout_from_upper; eassumption.
Qed.

Lemma reachable_layout_witness :
  no_overlap
    (img_list (run_all [OpListImage (4, 4); OpReset;
                        OpListFont (8, 8) "AB"; OpListImage (0, 3)]
                 (init silent_port 240 320))).
Proof.
  apply (reachable_layout silent_port 240 320
           [OpListImage (4, 4); OpReset; OpListFont (8, 8) "AB";
            OpListImage (0, 3)]).
  vm_compute. repeat constructor; discriminate.
Defined.

Lemma fonts_ok_grow s s' :
  font_list s' = font_list s ->
  (length (img_list s) <= length (img_list s'))%nat ->
  fonts_ok s -> fonts_ok s'.
Proof.
  intros Hf Hl H. unfold fonts_ok in *. rewrite Hf.
  eapply Forall_impl; [exact H|]. intros f Hok c id Hc.
  specialize (Hok c id Hc). lia.
Qed.

Lemma last_pos_bound c l i : last_pos c l = Some i -> (i < length l)%nat.
Proof.
  intros H. destruct (last_pos_Some _ _ _ H) as [Hl _].
  eapply lookup_lt_Some; exact Hl.
Qed.

Lemma length_list_ascii_of_string s :
  length (list_ascii_of_string s) = String.length s.
Proof. induction s as [|c s IH]; cbn; [reflexivity|now rewrite IH]. Qed.

Lemma fonts_ok_run o s : fonts_ok s -> fonts_ok (run o s).
Proof.
  intros H. destruct (registers o) eqn:R.
  - destruct o; try discriminate; cbn [run].
    + rewrite ListImage_spec. cbn [snd].
      eapply fonts_ok_grow; [|  |exact H]; [reflexivity|].
      cbn [img_list set_img_offset set_img_list]. rewrite length_app. lia.
    + destruct (ListFont_loop_imgs char_size char_list ∅ s) as [Hil _].
      pose proof (ListFont_loop_lookup char_size char_list ∅ s) as Hlk.
      pose proof (ListFont_loop_font_list char_size char_list ∅ s) as Hff.
      unfold ListFont.
      destruct (ListFont_loop char_size char_list ∅ s) as [f s1].
      cbn [fst snd] in *. unfold fonts_ok.
      cbn [font_list img_list set_font_list]. rewrite Hff.
      assert (Hlen : length (img_list s1) =
                     (length (img_list s) + String.length char_list)%nat).
      { rewrite Hil, length_app, layout_from_length, repeat_length.
        reflexivity. }
      apply Forall_app. split.
      * eapply Forall_impl; [exact H|]. intros g Hok c id Hc.
        specialize (Hok c id Hc). lia.
      * constructor; [|constructor]. intros c id Hc. rewrite Hlk in Hc.
        destruct (last_pos c (list_ascii_of_string char_list)) as [i|] eqn:E.
        -- inversion Hc; subst. apply last_pos_bound in E.
           rewrite length_list_ascii_of_string in E. lia.
        -- rewrite lookup_empty in Hc. discriminate.
  - destruct (run_registry_frame o s R) as (Hl & _ & Hf).
    eapply fonts_ok_grow; [exact Hf| |exact H]. rewrite Hl. lia.
Qed.

Lemma TextFont_glyphs_total this_font imgs lcd_w lcd_h text :
  font_ids_ok imgs this_font ->
  forall x y, exists gs,
    TextFont_glyphs this_font imgs lcd_w lcd_h text x y = Some gs.
Proof.
  intros Hok. induction text as [|c rest IH]; intros x y;
    cbn [TextFont_glyphs]; [now exists []|].
  destruct (this_font !! c) as [id|] eqn:Hc; [|apply IH].
  destruct (Hok c id Hc) as [H0 H1].
  destruct (lookup_lt_is_Some_2 imgs (Z.to_nat id)) as [info Hi]; [lia|].
  rewrite (index_nonneg _ _ _ H0 Hi).
  destruct (advance lcd_w lcd_h (snd info) x y) as [x' y'].
  destruct (IH x' y') as [gs ->]. eexists. reflexivity.
Qed.

Lemma send_batches_Ret t bs : forall s,
  exists b, fst (send_batches t bs s) = Ret b.
Proof.
  induction bs as [|b bs IH]; intros s; cbn [send_batches];
    [now exists true|].
  destruct (send_serial (batch t b) s) as [[|] s1]; [apply IH|now exists false].
Qed.

Lemma index_Ret_lookup {A} (l : list A) i a :
  index l i = Ret a -> exists j, l !! j = Some a.
Proof.
  unfold index. destruct ((0 <=? _) && (_ <? _)); [|discriminate].
  destruct (l !! Z.to_nat _) eqn:E; [|discriminate].
  intros H. inversion H; subst. eexists. exact E.
Qed.

(** X10. On every session reached from the constructor by any sequence of
    operations, every font only refers to registered images, so
    [TextFont] never raises while looking up a glyph: with a font id not
    below minus the number of fonts it returns true or false; with a font
    id below that it raises IndexError. *)
Theorem reachable_TextFont_never_raises (port : Serial) (width height : Z)
    (ops : list op) (font_id : Z) (position : Z * Z) (text : string) (t : Z) :
  fonts_ok (run_all ops (init port width height)) /\
  (- Z.of_nat (length (font_list (run_all ops (init port width height))))
     <= font_id ->
   exists b,
     fst (TextFont font_id position text t
            (run_all ops (init port width height))) = Ret b) /\
  (font_id <
     - Z.of_nat (length (font_list (run_all ops (init port width height)))) ->
   fst (TextFont font_id position text t
          (run_all ops (init port width height))) = Raise IndexError).
Proof.
  assert (F0 : fonts_ok (init port width height)).
  { destruct (init_fresh port width height) as (_ & _ & _ & Hf & _).
    unfold fonts_ok. rewrite Hf. constructor. }
  assert (F1 : forall l s, fonts_ok s -> fonts_ok (run_all l s)).
  { induction l as [|o l IH]; intros s H; [exact H|].
    cbn [run_all fold_left]. apply IH. now apply fonts_ok_run. }
  pose proof (F1 ops _ F0) as F.
  set (s := run_all ops (init port width height)) in *.
  split; [exact F|]. split.
  - intros H. unfold TextFont.
    destruct (font_id >? _) eqn:E; [now exists false|].
    assert (exists f, index (font_list s) font_id = Ret f) as [f Hf].
    { destruct (Z.ltb_spec font_id 0) as [N|N].
      - destruct (index_negative (font_list s) font_id) as (f & _ & Hf & _);
          [lia|]. now exists f.
      - destruct (lookup_lt_is_Some_2 (font_list s) (Z.to_nat font_id))
          as [f Hf]; [lia|]. exists f. now apply index_nonneg. }
    rewrite Hf. destruct (index_Ret_lookup _ _ _ Hf) as [j Hj].
    assert (Hok : font_ids_ok (img_list s) f).
    { unfold fonts_ok in F. rewrite Forall_lookup in F. exact (F j f Hj). }
    destruct (lcd_dims s) as [lcd_w lcd_h].
    destruct (TextFont_glyphs_total f (img_list s) lcd_w lcd_h text Hok
                (fst position) (snd position)) as [gs Hg].
    rewrite (TextFont_loop_glyphs _ _ _ _ _ _ _ _ _ _ _ Hg).
    rewrite (flush_batches t (length gs) gs s (Nat.le_refl _)).
    apply send_batches_Ret.
  - intros H. unfold TextFont.
    destruct (font_id >? _) eqn:E; [lia|].
    unfold index. destruct (font_id <? 0) eqn:N; [|lia].
    destruct ((0 <=? _) && (_ <? _)) eqn:B; [|reflexivity].
    apply andb_true_iff in B as [B _]. lia.
Qed.

Lemma reachable_TextFont_never_raises_witness :
  exists b,
    fst (TextFont (-1) (0, 0) "ABBA" 0
           (run_all [OpListFont (8, 8) "AB"; OpOrientation 1]
              (init silent_port 240 320))) = Ret b.
Proof.
  apply (reachable_TextFont_never_raises silent_port 240 320
           [OpListFont (8, 8) "AB"; OpOrientation 1] (-1) (0, 0) "ABBA" 0).
  vm_compute. discriminate.
Defined.

(** ** Text rendering *)

Lemma TextFont_loop_keep this_font t lcd_w lcd_h text :
  forall x y i send_str s,
    TextFont_loop this_font t lcd_w lcd_h text x y i send_str s =
    TextFont_loop this_font t lcd_w lcd_h (keep_in_font this_font text)
      x y i send_str s.
Proof.
  induction text as [|c rest IH]; intros x y i send_str s; [reflexivity|].
  cbn [keep_in_font]. destruct (this_font !! c) as [id|] eqn:Hc.
  - cbn [TextFont_loop]. rewrite Hc.
    destruct (index (img_list s) id) as [[addr [w h]]|e]; [|reflexivity].
    cbn [fst snd].
    destruct (x + w >=? lcd_w - w);
      (destruct (i + 1 >=? 16); [|apply IH]);
      match goal with
      | |- context [send_serial ?cmd s] =>
          destruct (send_serial cmd s) as [[|] s1]; [apply IH|reflexivity]
      end.
  - cbn [TextFont_loop]. rewrite Hc. apply IH.
Qed.

Lemma keep_in_font_all this_font text :
  all_in_font this_font (keep_in_font this_font text) = true.
Proof.
  unfold all_in_font. induction text as [|c rest IH]; [reflexivity|].
  cbn [keep_in_font]. destruct (this_font !! c) eqn:Hc; [|exact IH].
  cbn [list_ascii_of_string forallb]. now rewrite Hc.
Qed.

(** X11. Characters that are not in the font are ignored by [TextFont]:
    drawing a text is the same, for the port and for the result, as
    drawing the text with those characters removed; when no character of
    the text is in the font nothing is sent and the result is true. *)
Theorem TextFont_ignores_absent (s : SunLCD) (font_id : Z) (this_font : font)
    (position : Z * Z) (text : string) (t : Z) :
  index (font_list s) font_id = Ret this_font ->
  TextFont font_id position text t s =
    TextFont font_id position (keep_in_font this_font text) t s /\
  all_in_font this_font (keep_in_font this_font text) = true /\
  (keep_in_font this_font text = EmptyString ->
   TextFont font_id position text t s = (Ret true, s)).
Proof.
  intros Hf.
  assert (E : TextFont font_id position text t s =
              TextFont font_id position (keep_in_font this_font text) t s).
  { unfold TextFont. destruct (font_id >? _); [reflexivity|]. rewrite Hf.
    destruct (lcd_dims s) as [lcd_w lcd_h]. apply TextFont_loop_keep. }
  split; [exact E|]. split; [apply keep_in_font_all|].
  intros K. rewrite E, K. unfold TextFont.
  pose proof (index_Ret_upper _ _ _ Hf) as U.
  destruct (font_id >? _) eqn:G; [lia|]. rewrite Hf.
  destruct (lcd_dims s) as [lcd_w lcd_h]. reflexivity.
Qed.

Lemma AB_font_index : index (font_list AB_session) 0 = Ret AB_font.
Proof.
  exact (ListFont_first_font (16, 16) "AB" (init silent_port 240 320)
           (proj1 (proj2 (proj2 (proj2 (init_fresh silent_port 240 320)))))).
Qed.

Lemma TextFont_ignores_absent_witness :
  TextFont 0 (0, 0) "xAyB" 0 AB_session = TextFont 0 (0, 0) "AB" 0 AB_session.
Proof.
  exact (eq_trans
           (proj1 (TextFont_ignores_absent AB_session 0 AB_font (0, 0)
                     "xAyB" 0 AB_font_index))
           (f_equal (fun txt => TextFont 0 (0, 0) txt 0 AB_session)
              (ltac:(vm_compute; reflexivity)
                : keep_in_font AB_font "xAyB" = "AB"))).
Defined.

Lemma glyphs_on_screen this_font imgs w h lcd_w lcd_h text :
  font_ok imgs (w, h) this_font -> 0 <= w -> 0 <= h ->
  forall x y, 0 <= x < lcd_w - w -> 0 <= y < lcd_h - h ->
  exists gs,
    TextFont_glyphs this_font imgs lcd_w lcd_h text x y = Some gs /\
    Forall (on_screen lcd_w lcd_h (w, h)) gs /\
    Forall (fun g => snd g = (w, h)) gs.
Proof.
  intros Hok Hw Hh. induction text as [|c rest IH]; intros x y Hx Hy.
  - exists []. repeat split; constructor.
  - cbn [TextFont_glyphs]. destruct (this_font !! c) as [id|] eqn:Hc;
      [|now apply IH].
    destruct (font_ok_index _ _ _ _ _ Hok Hc) as [addr ->].
    unfold advance. cbn [fst snd].
    destruct (x + w >=? lcd_w - w) eqn:Ex.
    + destruct (y + h >=? lcd_h - h) eqn:Ey.
      * destruct (IH 0 0) as (gs & -> & H1 & H2); [lia|lia|].
        eexists. split; [reflexivity|].
        split; constructor; try assumption; try reflexivity.
        unfold on_screen, glyph_pos. cbn [fst snd]. lia.
      * destruct (IH 0 (y + h)) as (gs & -> & H1 & H2); [lia|lia|].
        eexists. split; [reflexivity|].
        split; constructor; try assumption; try reflexivity.
        unfold on_screen, glyph_pos. cbn [fst snd]. lia.
    + destruct (IH (x + w) y) as (gs & -> & H1 & H2); [lia|lia|].
      eexists. split; [reflexivity|].
      split; constructor; try assumption; try reflexivity.
      unfold on_screen, glyph_pos. cbn [fst snd]. lia.
Qed.

(** X12. When a text is drawn in a font of glyphs of one valid size from
    an origin with 0 <= x < logical_width - glyph_width and
    0 <= y < logical_height - glyph_height, every glyph [TextFont] sends
    is placed within those same bounds, so no glyph crosses the right or
    the bottom edge, however long the text is. *)
Theorem TextFont_stays_on_screen (s : SunLCD) (font_id : Z) (this_font : font)
    (char_size position : Z * Z) (text : string) (t : Z) :
  index (font_list s) font_id = Ret this_font ->
  font_ok (img_list s) char_size this_font ->
  valid_size char_size ->
  0 <= fst position < fst (lcd_dims s) - fst char_size ->
  0 <= snd position < snd (lcd_dims s) - snd char_size ->
  exists gs,
    TextFont font_id position text t s = send_batches t (batches gs) s /\
    Forall (on_screen (fst (lcd_dims s)) (snd (lcd_dims s)) char_size) gs /\
    Forall (fun g => snd g = char_size) gs.
Proof.
  intros Hf Hok [Hw Hh] Hx Hy. destruct char_size as [w h]. cbn [fst snd] in *.
  destruct (glyphs_on_screen this_font (img_list s) w h (fst (lcd_dims s))
              (snd (lcd_dims s)) text Hok Hw Hh _ _ Hx Hy)
    as (gs & Hg & H1 & H2).
  exists gs. split; [|split; assumption].
  eapply TextFont_send_batches; eassumption.
Qed.

Lemma TextFont_stays_on_screen_witness :
  exists gs,
    TextFont 0 (0, 0) "Hello" 0 (narrow_session silent_port) =
      send_batches 0 (batches gs) (narrow_session silent_port) /\
    Forall (on_screen (fst (lcd_dims (narrow_session silent_port)))
              (snd (lcd_dims (narrow_session silent_port))) (16, 16)) gs.
Proof.
  destruct (TextFont_stays_on_screen (narrow_session silent_port) 0
              (narrow_font silent_port) (16, 16) (0, 0) "Hello" 0
              (narrow_font_index silent_port) (narrow_font_ok silent_port))
    as (gs & H1 & H2 & _).
  - split; cbn [fst snd]; lia.
  - vm_compute. split; [discriminate|reflexivity].
  - vm_compute. split; [discriminate|reflexivity].
  - exists gs. split; assumption.
Defined.

(** ** What the operations write *)

Lemma writes_app a b : writes (a ++ b) = writes a ++ writes b.
Proof.
  induction a as [|[] a IH]; cbn [writes app]; rewrite ?IH; reflexivity.
Qed.

Lemma ReadBack_writes s :
  writes (trace (ser (snd (ReadBack s)))) = writes (trace (ser s)).
Proof.
  unfold ReadBack.
  pose proof (Serial_drain_trace (ser s)) as T.
  destruct (Serial_drain (ser s)) as [chunk p]. cbn [snd] in T.
  destruct (ReadBack_scan chunk (_buf s) []) as [rs buf].
  destruct (length rs =? 0)%nat; cbn [snd].
  - cbn [ser set_buf set_ser]. rewrite T, writes_app. cbn [writes].
    now rewrite app_nil_r.
  - destruct (ReadBack_classify_frame rs (set_buf buf (set_ser p s)))
      as (_ & -> & _).
    cbn [ser set_buf set_ser]. rewrite T, writes_app. cbn [writes].
    now rewrite app_nil_r.
Qed.

Lemma ListFont_loop_ser char_size char_list : forall this_font s,
  ser (snd (ListFont_loop char_size char_list this_font s)) = ser s.
Proof.
  induction char_list as [|c rest IH]; intros this_font s;
    cbn [ListFont_loop]; [reflexivity|].
  rewrite ListImage_spec, IH. reflexivity.
Qed.

Lemma send_serial_lines cmd s :
  writes (trace (ser (snd (send_serial cmd s)))) =
  writes (trace (ser s)) ++ lines [cmd].
Proof. apply send_serial_writes. Qed.

Lemma TextFont_loop_lines this_font t lcd_w lcd_h text :
  forall x y i send_str s,
  exists cmds,
    writes (trace (ser (snd (TextFont_loop this_font t lcd_w lcd_h text
                               x y i send_str s)))) =
    writes (trace (ser s)) ++ lines cmds.
Proof.
  induction text as [|c rest IH]; intros x y i send_str s;
    cbn [TextFont_loop].
  - destruct (len send_str >? 0).
    + pose proof (send_serial_lines send_str s) as W.
      destruct (send_serial send_str s) as [res s1]. eexists. exact W.
    + exists []. cbn. now rewrite app_nil_r.
  - destruct (this_font !! c) as [id|]; [|apply IH].
    destruct (index (img_list s) id) as [[addr [w h]]|e];
      [|exists []; cbn; now rewrite app_nil_r].
    cbn [fst snd].
    destruct (x + w >=? lcd_w - w);
      (destruct (i + 1 >=? 16); [|apply IH]);
      match goal with
      | |- context [send_serial ?cmd s] =>
          pose proof (send_serial_lines cmd s) as W;
          destruct (send_serial cmd s) as [[|] s1]; cbn [snd] in *;
          [ match goal with
            | |- context [TextFont_loop _ _ _ _ _ ?x' ?y' ?i' ?str' s1] =>
                destruct (IH x' y' i' str' s1) as [cmds Hc];
                exists (cmd :: cmds); rewrite Hc, W, <- app_assoc; reflexivity
            end
          | eexists; exact W ]
      end.
Qed.

(** X13. Whatever the device answers, an operation only appends to what
    was written to the port, and what it appends is a list of commands each
    followed by CRLF.  Every operation other than [TextFont] writes at most
    one command; [ReadBack], [MoveTo], [ListImage] and [ListFont] write
    none. *)
Theorem operations_append_lines (o : op) (s : SunLCD) :
  exists cmds,
    writes (trace (ser (run o s))) = writes (trace (ser s)) ++ lines cmds /\
    (is_TextFont o = false -> (length cmds <= 1)%nat) /\
    (local_op o = true -> cmds = []).
Proof.
  assert (One : forall cmd s0,
            exists cmds,
              writes (trace (ser (snd (send_serial cmd s0)))) =
                writes (trace (ser s0)) ++ lines cmds /\
              (length cmds <= 1)%nat).
  { intros cmd s0. exists [cmd]. split; [apply send_serial_lines|cbn; lia]. }
  assert (Zero : forall s', ser s' = ser s ->
            exists cmds,
              writes (trace (ser s')) = writes (trace (ser s)) ++ lines cmds /\
              (is_TextFont o = false -> (length cmds <= 1)%nat) /\
              (local_op o = true -> cmds = [])).
  { intros s' E. exists []. rewrite E. cbn. rewrite app_nil_r.
    repeat split; intros; lia || reflexivity. }
  assert (Wrap : forall s',
            (exists cmds,
               writes (trace (ser s')) = writes (trace (ser s)) ++ lines cmds /\
               (length cmds <= 1)%nat) ->
            local_op o = false ->
            exists cmds,
              writes (trace (ser s')) = writes (trace (ser s)) ++ lines cmds /\
              (is_TextFont o = false -> (length cmds <= 1)%nat) /\
              (local_op o = true -> cmds = [])).
  { intros s' (cmds & H1 & H2) L. exists cmds. split; [exact H1|].
    split; [intros _; exact H2|]. rewrite L. discriminate. }
  destruct o; cbn [run];
    try (apply Wrap; [apply One|reflexivity]).
  - (* ReadBack *)
    exists []. rewrite ReadBack_writes. cbn. rewrite app_nil_r.
    repeat split; intros; lia || reflexivity.
  - (* Baudrate *)
    apply Wrap; [|reflexivity]. unfold Baudrate.
    destruct (One ("BPS(" +:+ str baudrate +:+ ")") s) as (cmds & H1 & H2).
    destruct (send_serial _ s) as [res s1]. cbn [snd] in *.
    exists cmds. split; [|exact H2].
    cbn [ser set_ser Serial_reopen trace]. rewrite writes_app, H1.
    cbn [writes]. now rewrite app_nil_r.
  - (* On *)
    apply Wrap; [|reflexivity]. unfold On.
    match goal with
    | |- context [if ?b then _ else _] => destruct b
    end; apply One.
  - (* Orientation *)
    apply Wrap; [|reflexivity]. unfold Orientation.
    destruct (orientation =? 0);
      [exact (One "DIR(0)" (set_current_orientation orientation s))|].
    destruct (orientation =? 1);
      [exact (One "DIR(1)" (set_current_orientation orientation s))|].
    exists []. cbn. rewrite app_nil_r. split; [reflexivity|lia].
  - (* Brightness *)
    apply Wrap; [|reflexivity]. unfold Brightness.
    destruct (Brightness_bl_val level); [apply One|].
    exists []. cbn. rewrite app_nil_r. split; [reflexivity|lia].
  - (* MoveTo *)
    apply Zero. unfold MoveTo.
    destruct (position_items position) as [[x y]|]; reflexivity.
  - (* LineTo *)
    apply Wrap; [|reflexivity]. unfold LineTo.
    destruct (position_items position) as [p|] eqn:P;
      [|exists []; cbn; rewrite app_nil_r; split; [reflexivity|lia]].
    unfold Line.
    destruct (One (cmd4 "PL" (cursor s) p color) s) as (cmds & H1 & H2).
    destruct (send_serial _ s) as [[|] s1]; cbn [snd] in *;
      exists cmds; (split; [|exact H2]); [|exact H1].
    unfold MoveTo. rewrite P. destruct p as [x y]. exact H1.
  - (* ListImage *)
    apply Zero. rewrite ListImage_spec. reflexivity.
  - (* ListFont *)
    apply Zero. unfold ListFont.
    pose proof (ListFont_loop_ser char_size char_list ∅ s) as E.
    destruct (ListFont_loop char_size char_list ∅ s) as [f s1]. exact E.
  - (* ShowImage *)
    apply Wrap; [|reflexivity]. unfold ShowImage.
    destruct (image_id >? _);
      [exists []; cbn; rewrite app_nil_r; split; [reflexivity|lia]|].
    destruct (index (img_list s) image_id) as [info|e];
      [|exists []; cbn; rewrite app_nil_r; split; [reflexivity|lia]].
    unfold RawImage.
    destruct (One (FSIMG (fst info) position (snd info) transparent) s)
      as (cmds & H1 & H2).
    destruct (send_serial _ s) as [res s1]. exists cmds. split; assumption.
  - (* TextFont *)
    assert (exists cmds,
              writes (trace (ser (snd (TextFont font_id position text
                                         transparent s)))) =
              writes (trace (ser s)) ++ lines cmds) as [cmds H].
    { unfold TextFont.
      destruct (font_id >? _); [exists []; cbn; now rewrite app_nil_r|].
      destruct (index (font_list s) font_id) as [f|e];
        [|exists []; cbn; now rewrite app_nil_r].
      destruct (lcd_dims s) as [lcd_w lcd_h]. apply TextFont_loop_lines. }
    exists cmds. split; [exact H|]. split; discriminate.
Qed.

(** ** The transmissions of a complete text *)

Lemma groups_of_16_concat fuel : forall gs,
  (length gs <= fuel)%nat -> concat (groups_of_16 fuel gs) = gs.
Proof.
  induction fuel as [|fuel IH]; intros gs H.
  - destruct gs; [reflexivity|simpl in H; lia].
  - destruct gs as [|g gs]; [reflexivity|].
    cbn [groups_of_16 concat]. rewrite IH by (rewrite length_drop; lia).
    apply take_drop.
Qed.

Lemma groups_of_16_length fuel : forall gs,
  (length gs <= fuel)%nat ->
  length (groups_of_16 fuel gs) = ((length gs + 15) / 16)%nat.
Proof.
  induction fuel as [|fuel IH]; intros gs H.
  - destruct gs; [reflexivity|simpl in H; lia].
  - destruct gs as [|g gs]; [reflexivity|].
    cbn [groups_of_16].
    assert (N : (1 <= length (g :: gs))%nat) by (cbn [length]; lia).
    remember (g :: gs) as l eqn:El. clear El. cbn [length].
    rewrite IH by (rewrite length_drop; lia). rewrite length_drop.
    set (n := length l) in *.
    destruct (Nat.le_gt_cases n 16) as [L|L].
    + replace (n - 16 + 15)%nat with 15%nat by lia.
      change (15 / 16)%nat with 0%nat.
      apply Nat.div_unique with (r := (n - 1)%nat); lia.
    + replace (n + 15)%nat with (1 * 16 + (n - 16 + 15))%nat by lia.
      rewrite Nat.div_add_l by lia. lia.
Qed.

Lemma groups_of_16_sizes fuel : forall gs i b,
  (length gs <= fuel)%nat ->
  groups_of_16 fuel gs !! i = Some b ->
  (1 <= length b <= 16)%nat /\
  (S i < length (groups_of_16 fuel gs) -> length b = 16)%nat.
Proof.
  induction fuel as [|fuel IH]; intros gs i b H Hb.
  - destruct gs; discriminate.
  - destruct gs as [|g gs]; [discriminate|].
    cbn [groups_of_16] in *.
    assert (N : (1 <= length (g :: gs))%nat) by (cbn [length]; lia).
    remember (g :: gs) as l eqn:El. clear El g gs.
    destruct i as [|i].
    + cbn [lookup list_lookup] in Hb. inversion Hb; subst b. clear Hb.
      rewrite length_take. split; [lia|].
      cbn [length]. intros Hl.
      destruct (drop 16 l) as [|g' r] eqn:D.
      * rewrite groups_of_16_nil in Hl. cbn in Hl. lia.
      * apply (f_equal (@length glyph)) in D.
        rewrite length_drop in D. cbn [length] in D. lia.
    + cbn [lookup list_lookup] in Hb. cbn [length].
      destruct (IH (drop 16 l) i b) as [H1 H2];
        [rewrite length_drop; lia|exact Hb|].
      split; [exact H1|]. intros Hl. apply H2. lia.
Qed.

Lemma send_batches_lines t bs : forall s,
  exists m, (m <= length bs)%nat /\
    writes (trace (ser (snd (send_batches t bs s)))) =
      writes (trace (ser s)) ++ lines (map (batch t) (take m bs)) /\
    (fst (send_batches t bs s) = Ret true -> m = length bs) /\
    (fst (send_batches t bs s) = Ret false -> (1 <= m)%nat).
Proof.
  induction bs as [|b bs IH]; intros s; cbn [send_batches].
  - exists 0%nat. cbn. rewrite app_nil_r.
    repeat split; try lia; discriminate.
  - pose proof (send_serial_lines (batch t b) s) as W.
    destruct (send_serial (batch t b) s) as [[|] s1]; cbn [fst snd] in *.
    + destruct (IH s1) as (m & Hm & Hw & Ht & Hf).
      exists (S m). split; [cbn [length]; lia|]. split.
      * rewrite Hw, W, <- app_assoc. reflexivity.
      * split; [intros E; cbn [length]; f_equal; now apply Ht|intros; lia].
    + exists 1%nat. split; [cbn [length]; lia|]. split.
      * rewrite W. cbn [take firstn]. rewrite take_0. reflexivity.
      * split; [discriminate|lia].
Qed.

(** X14. For a text whose glyphs are gs, [TextFont] writes the command
    texts of the first m groups of 16 glyphs, one line per group, where m
    is the number of all groups when it returns true and at least 1 when it
    returns false.  The groups partition gs in order: there are
    ceil(len(gs)/16) of them, each holds between 1 and 16 glyphs, and all
    but the last hold exactly 16 - so a text of exactly 16 or 32 glyphs
    sends no trailing empty line. *)
Theorem TextFont_transmissions (s : SunLCD) (font_id : Z) (this_font : font)
    (position : Z * Z) (text : string) (t : Z) (gs : list glyph) :
  index (font_list s) font_id = Ret this_font ->
  TextFont_glyphs this_font (img_list s) (fst (lcd_dims s)) (snd (lcd_dims s))
    text (fst position) (snd position) = Some gs ->
  (exists m, (m <= length (batches gs))%nat /\
     writes (trace (ser (snd (TextFont font_id position text t s)))) =
       writes (trace (ser s)) ++ lines (map (batch t) (take m (batches gs))) /\
     (fst (TextFont font_id position text t s) = Ret true ->
      m = length (batches gs)) /\
     (fst (TextFont font_id position text t s) = Ret false -> (1 <= m)%nat)) /\
  concat (batches gs) = gs /\
  length (batches gs) = ((length gs + 15) / 16)%nat /\
  (forall i b, batches gs !! i = Some b ->
     (1 <= length b <= 16)%nat /\
     (S i < length (batches gs) -> length b = 16)%nat).
Proof.
  intros Hf Hg.
  rewrite (TextFont_send_batches _ _ _ _ _ t _ Hf Hg).
  split; [apply send_batches_lines|].
  unfold batches.
  split; [apply groups_of_16_concat; lia|].
  split; [apply groups_of_16_length; lia|].
  intros i b Hb. eapply groups_of_16_sizes; [|exact Hb]. lia.
Qed.

Lemma TextFont_transmissions_witness :
  length (batches (narrow_glyphs (ok_port 5)
                     "ABCDEFGHIJKLMNOPQRSTUVWXYZabcdefg")) = 3%nat /\
  concat (batches (narrow_glyphs (ok_port 5)
                     "ABCDEFGHIJKLMNOPQRSTUVWXYZabcdefg")) =
    narrow_glyphs (ok_port 5) "ABCDEFGHIJKLMNOPQRSTUVWXYZabcdefg".
Proof.
  destruct (TextFont_transmissions (narrow_session (ok_port 5)) 0
              (narrow_font (ok_port 5)) (0, 0)
              "ABCDEFGHIJKLMNOPQRSTUVWXYZabcdefg" 0
              (narrow_glyphs (ok_port 5) "ABCDEFGHIJKLMNOPQRSTUVWXYZabcdefg")
              (narrow_font_index (ok_port 5))
              ltac:(vm_compute; reflexivity))
    as (_ & Hc & Hl & _).
  split; [|exact Hc].
  rewrite Hl. vm_compute. reflexivity.
Defined.
